(** * video_grid_full_pipeline33T: secure envelope and collage compositor

    A shallow embedding of the two leaf pipelines of
    [video_grid_full_pipeline33T.py]:

    - the envelope protocol: [encrypt_html_aes_gcm], the constants that
      [make_aes_protected_wrapper] writes into the page, the JavaScript
      [unlockWithPassword] of that page and the password gate of [main];
    - the collage compositor: [download_image_to_pil] and
      [build_collages_for_33T].

    Python [int] is [Z]; [bytes] is [list byte]; a Python [str] is kept as
    the Rocq [string] of its UTF-8 bytes, so that [str.encode("utf-8")] is
    [list_byte_of_string].  Library calls (PBKDF2, AES-GCM, Pillow's codecs,
    path arithmetic) are operations of type classes; the file system, the
    network, the entropy pool and the console are fields of an explicit
    world that every effectful function threads. *)

From Stdlib Require Import ZArith NArith List Strings.String Strings.Ascii Strings.Byte Bool Lia.
From Stdlib Require Import Reals Lra.
From Stdlib Require Import Floats.SpecFloat.
Import ListNotations.

Local Open Scope string_scope.
Local Open Scope Z_scope.

Definition bytes := list byte.

(** ** Base64 (RFC 4648), as [base64.b64encode] writes it and [atob] reads it *)

Module Base64.

Definition alphabet : list ascii :=
  list_ascii_of_string
    "ABCDEFGHIJKLMNOPQRSTUVWXYZabcdefghijklmnopqrstuvwxyz0123456789+/".

Definition pad : ascii := "="%char.

(** The character of a sextet. *)
Definition digit (n : N) : ascii := nth (N.to_nat n) alphabet pad.

Fixpoint index_from (i : N) (c : ascii) (l : list ascii) : option N :=
  match l with
  | [] => None
  | a :: l' => if Ascii.eqb a c then Some i else index_from (N.succ i) c l'
  end.

(** The sextet of a character, [None] outside the alphabet. *)
Definition value (c : ascii) : option N := index_from 0%N c alphabet.

Definition byte_of_N (n : N) : byte :=
  match Byte.of_N (n mod 256) with
  | Some b => b
  | None => x00
  end.

(** [base64.b64encode(bs).decode("ascii")]: three bytes give four digits,
    the last group is padded with [=]. *)
Fixpoint b64encode (bs : bytes) : string :=
  match bs with
  | [] => EmptyString
  | [b0] =>
      let n0 := Byte.to_N b0 in
      String (digit (n0 / 4))
        (String (digit ((n0 mod 4) * 16))
           (String pad (String pad EmptyString)))
  | [b0; b1] =>
      let n0 := Byte.to_N b0 in
      let n1 := Byte.to_N b1 in
      String (digit (n0 / 4))
        (String (digit ((n0 mod 4) * 16 + n1 / 16))
           (String (digit ((n1 mod 16) * 4))
              (String pad EmptyString)))
  | b0 :: b1 :: b2 :: rest =>
      let n0 := Byte.to_N b0 in
      let n1 := Byte.to_N b1 in
      let n2 := Byte.to_N b2 in
      String (digit (n0 / 4))
        (String (digit ((n0 mod 4) * 16 + n1 / 16))
           (String (digit ((n1 mod 16) * 4 + n2 / 64))
              (String (digit (n2 mod 64))
                 (b64encode rest))))
  end%N.

(** [base64ToArrayBuffer(b64)]: [atob] followed by the [charCodeAt] loop.
    [None] stands for the [InvalidCharacterError] that [atob] throws.
    Input is read four digits at a time; padding may close the last
    group only. *)
Fixpoint decode_groups (fuel : nat) (s : list ascii) : option bytes :=
  match fuel with
  | O => match s with [] => Some [] | _ => None end
  | S fuel' =>
      match s with
      | [] => Some []
      | c0 :: c1 :: c2 :: c3 :: rest =>
          match value c0, value c1 with
          | Some s0, Some s1 =>
              let b0 := byte_of_N (s0 * 4 + s1 / 16) in
              if Ascii.eqb c2 pad then
                if Ascii.eqb c3 pad then
                  match rest with [] => Some [b0] | _ => None end
                else None
              else
                match value c2 with
                | Some s2 =>
                    let b1 := byte_of_N ((s1 mod 16) * 16 + s2 / 4) in
                    if Ascii.eqb c3 pad then
                      match rest with [] => Some [b0; b1] | _ => None end
                    else
                      match value c3 with
                      | Some s3 =>
                          let b2 := byte_of_N ((s2 mod 4) * 64 + s3) in
                          option_map (fun t => b0 :: b1 :: b2 :: t)
                                     (decode_groups fuel' rest)
                      | None => None
                      end
                | None => None
                end
          | _, _ => None
          end
      | _ => None
      end
  end%N.

Definition base64ToArrayBuffer (b64 : string) : option bytes :=
  let s := list_ascii_of_string b64 in
  decode_groups (List.length s) s.

End Base64.

(** ** Outcomes, the world and the effect monad *)

(** The exceptions the modelled code can raise by its own arithmetic. *)
Inductive exn : Type :=
| ZeroDivisionError
| ValueError
| OverflowError
| EOFError.

(** How a call ends: a value, an uncaught exception, or [sys.exit(code)]. *)
Inductive outcome (A : Type) : Type :=
| Ok (a : A)
| Raise (e : exn)
| Exit (code : Z).
Arguments Ok {A} a.
Arguments Raise {A} e.
Arguments Exit {A} code.

Definition outcome_bind {A B} (o : outcome A) (k : A -> outcome B) : outcome B :=
  match o with
  | Ok a => k a
  | Raise e => Raise e
  | Exit c => Exit c
  end.

(** The lines the script prints, by the [print] call they come from. *)
Inductive Message : Type :=
| MsgCollageDisabled
| MsgNoThumbnails
| MsgFailedToLoad
| MsgBuilding (n cols rows cell_w cell_h base_w base_h : Z)
| MsgRealEncoded
| MsgCoverSaved (cover_path : string)
| MsgAesPrompt
| MsgEmptyPassword.

(** What the run does to the outside, as the log records it. *)
Inductive Event : Type :=
| Print (m : Message)
| GetPass
| Urandom (n : nat)
| Pbkdf2Derive (password salt : bytes) (iterations : Z)
| AesGcmEncrypt (nonce plaintext : bytes)
| WriteFile (path : string).

(** The constants [make_aes_protected_wrapper] formats into the page it
    returns; the rest of that page is fixed markup and script. *)
Record ProtectedPage : Type := {
  SALT_B64 : string;
  IV_B64 : string;
  CT_B64 : string;
  PBKDF2_ITERATIONS : Z;
  og_url : option string
}.

(** A decoded [PIL.Image] in mode RGB. *)
Record Image : Type := {
  width : Z;
  height : Z;
  pixels : bytes
}.

(** [collage.paste(im.resize((new_w, new_h), Image.LANCZOS), (x, y))]. *)
Record Paste : Type := {
  paste_im : Image;
  paste_new_w : Z;
  paste_new_h : Z;
  paste_x : Z;
  paste_y : Z
}.

(** An image under construction: [Image.new("RGB", (w, h), color)] and the
    pastes made into it, oldest first. *)
Record Canvas : Type := {
  canvas_w : Z;
  canvas_h : Z;
  canvas_color : Z * Z * Z;
  canvas_pastes : list Paste
}.

(** A finished picture: the canvas, or a filter applied to a picture. *)
Inductive Picture : Type :=
| Drawn (c : Canvas)
| GaussianBlur (radius : Z) (p : Picture).

Inductive FileContent : Type :=
| Binary (data : bytes)
| PlainHtml (html : string)
| ObfuscatedHtml (html : string)
| ProtectedHtml (page : ProtectedPage).

Record Response : Type := {
  ok : bool;
  content : bytes
}.

Record World : Type := {
  files : list (string * FileContent);   (* newest write first *)
  http_get : string -> option Response;  (* [None]: [requests.get] raises *)
  entropy : nat -> byte;                 (* the bytes [os.urandom] will give *)
  drawn : nat;                           (* how many of them were taken *)
  tty : list string;                     (* what will be typed at prompts *)
  log : list Event                       (* newest event first *)
}.

Definition M (A : Type) : Type := World -> outcome A * World.

Definition ret {A} (a : A) : M A := fun w => (Ok a, w).

Definition bind {A B} (m : M A) (k : A -> M B) : M B :=
  fun w =>
    match m w with
    | (Ok a, w') => k a w'
    | (Raise e, w') => (Raise e, w')
    | (Exit c, w') => (Exit c, w')
    end.

Declare Scope monad_scope.
Delimit Scope monad_scope with monad.
Notation "x <- m ;; k" := (bind m (fun x => k))
  (at level 61, m at next level, right associativity) : monad_scope.
Notation "' pat <- m ;; k" := (bind m (fun x => match x with pat => k end))
  (at level 61, pat pattern, m at next level, right associativity) : monad_scope.
Notation "m ;; k" := (bind m (fun _ => k))
  (at level 61, right associativity) : monad_scope.
Local Open Scope monad_scope.

Definition lift {A} (o : outcome A) : M A := fun w => (o, w).

Definition record (e : Event) : M unit :=
  fun w => (Ok tt, {| files := files w; http_get := http_get w;
                      entropy := entropy w; drawn := drawn w;
                      tty := tty w; log := e :: log w |}).

Definition print (m : Message) : M unit := record (Print m).

Definition sys_exit {A} (code : Z) : M A := fun w => (Exit code, w).

(** [os.urandom(n)]. *)
Definition urandom (n : nat) : M bytes :=
  fun w => (Ok (map (fun i => entropy w (drawn w + i)%nat) (seq 0 n)),
            {| files := files w; http_get := http_get w;
               entropy := entropy w; drawn := (drawn w + n)%nat;
               tty := tty w; log := Urandom n :: log w |}).

(** [getpass.getpass(prompt)]. *)
Definition getpass : M string :=
  fun w =>
    match tty w with
    | [] => (Raise EOFError, w)
    | line :: rest =>
        (Ok line, {| files := files w; http_get := http_get w;
                     entropy := entropy w; drawn := drawn w;
                     tty := rest; log := GetPass :: log w |})
    end.

(** [path.write_text(...)] and [image.save(path)]. *)
Definition write_file (path : string) (c : FileContent) : M unit :=
  fun w => (Ok tt, {| files := (path, c) :: files w; http_get := http_get w;
                      entropy := entropy w; drawn := drawn w;
                      tty := tty w; log := WriteFile path :: log w |}).

Fixpoint lookup_file (fs : list (string * FileContent)) (path : string)
  : option FileContent :=
  match fs with
  | [] => None
  | (p, c) :: fs' => if String.eqb p path then Some c else lookup_file fs' path
  end.

(** ** The libraries the script calls *)

(** [cryptography]'s PBKDF2HMAC and AESGCM on the sealing side, Web Crypto's
    [deriveKey] and [decrypt] on the opening side: the same two standard
    algorithms.  [AESGCM_decrypt] is [None] when the tag does not verify. *)
Class Crypto : Type := {
  PBKDF2HMAC_SHA256 : forall (length : Z) (salt : bytes) (iterations : Z)
                             (password : bytes), bytes;
  AESGCM_encrypt : forall (key nonce data : bytes), bytes;
  AESGCM_decrypt : forall (key nonce data : bytes), option bytes
}.

(** What the two algorithms guarantee: the derived key has the requested
    length, and a 256-bit key opens what it sealed under the same nonce. *)
Class CryptoLaws (C : Crypto) : Prop := {
  derive_length : forall len salt iterations password,
    0 <= len ->
    List.length (PBKDF2HMAC_SHA256 len salt iterations password) = Z.to_nat len;
  open_seal : forall key nonce data,
    List.length key = 32%nat ->
    List.length nonce = 12%nat ->
    AESGCM_decrypt key nonce (AESGCM_encrypt key nonce data) = Some data
}.

(** Pillow's codecs: [Image.open(...).convert("RGB")], [None] when it raises,
    and the PNG encoder behind [save(..., format="PNG")]. *)
Class Pillow : Type := {
  Image_open : bytes -> option Image;
  png_encode : Picture -> bytes
}.

(** [pathlib]: [Path.is_absolute], the [/] operator and [Path.name]. *)
Class OsPath : Type := {
  is_absolute : string -> bool;
  joinpath : string -> string -> string;
  path_name : string -> string
}.

(** ** Envelope protocol *)

Section Envelope.
Context {crypto : Crypto}.

Definition kdf_derive (length : Z) (salt : bytes) (iterations : Z)
           (password : bytes) : M bytes :=
  record (Pbkdf2Derive password salt iterations) ;;
  ret (PBKDF2HMAC_SHA256 length salt iterations password).

Definition aesgcm_encrypt (key nonce data : bytes) : M bytes :=
  record (AesGcmEncrypt nonce data) ;;
  ret (AESGCM_encrypt key nonce data).

(** [encrypt_html_aes_gcm(html, password, iterations)]. *)
Definition encrypt_html_aes_gcm (html password : string) (iterations : Z)
  : M (string * string * string * Z) :=
  let password_bytes := list_byte_of_string password in
  salt <- urandom 16 ;;
  iv <- urandom 12 ;;
  key <- kdf_derive 32 salt iterations password_bytes ;;
  ciphertext <- aesgcm_encrypt key iv (list_byte_of_string html) ;;
  let salt_b64 := Base64.b64encode salt in
  let iv_b64 := Base64.b64encode iv in
  let ct_b64 := Base64.b64encode ciphertext in
  ret (salt_b64, iv_b64, ct_b64, iterations).

Definition PUBLIC_BASE_URL : string :=
  "https://agatasiwekjendobrezakopane4eve.github.io/VD3".

(** Python's truth value of a [str | None]. *)
Definition truthy (o : option string) : option string :=
  match o with
  | Some s => if String.eqb s "" then None else Some s
  | None => None
  end.

(** [make_aes_protected_wrapper(html, password, og_image_rel)]; it seals
    with the default iteration count. *)
Definition make_aes_protected_wrapper (html password : string)
           (og_image_rel : option string) : M ProtectedPage :=
  '(salt_b64, iv_b64, ct_b64, iterations) <-
     encrypt_html_aes_gcm html password 100000 ;;
  ret {| SALT_B64 := salt_b64;
         IV_B64 := iv_b64;
         CT_B64 := ct_b64;
         PBKDF2_ITERATIONS := iterations;
         og_url := option_map (fun rel => PUBLIC_BASE_URL ++ "/" ++ rel)
                              (truthy og_image_rel) |}.

(** The page after a submission. *)
Inductive Unlock : Type :=
| Unlocked (html : string)      (* [document.write(html)] *)
| DecryptionFailed.             (* "Decryption failed. Wrong password." *)

(** The [try] block of [unlockWithPassword(pw)] down to
    [crypto.subtle.decrypt]: [None] is any exception on the way. *)
Definition unlock_plaintext (page : ProtectedPage) (pw : string)
  : option bytes :=
  let pwBuf := list_byte_of_string pw in
  match Base64.base64ToArrayBuffer (SALT_B64 page),
        Base64.base64ToArrayBuffer (IV_B64 page),
        Base64.base64ToArrayBuffer (CT_B64 page) with
  | Some salt, Some iv, Some ciphertext =>
      let aesKey :=
        PBKDF2HMAC_SHA256 32 salt (PBKDF2_ITERATIONS page) pwBuf in
      AESGCM_decrypt aesKey iv ciphertext
  | _, _, _ => None
  end.

(** [unlockWithPassword(pw)]. *)
Definition unlockWithPassword (page : ProtectedPage) (pw : string) : Unlock :=
  match unlock_plaintext page pw with
  | Some plaintextBuf => Unlocked (string_of_list_byte plaintextBuf)
  | None => DecryptionFailed
  end.

(** Step 8 of [main]: what is written as HTML B. *)
Definition main_write_b (html html_b_path : string)
           (og_image_rel : option string) (aes_lock obfuscate : bool)
  : M unit :=
  if aes_lock then
    print MsgAesPrompt ;;
    pw <- getpass ;;
    if String.eqb pw "" then
      print MsgEmptyPassword ;;
      sys_exit 1
    else
      wrapper_html <- make_aes_protected_wrapper html pw og_image_rel ;;
      write_file html_b_path (ProtectedHtml wrapper_html)
  else if obfuscate then
    write_file html_b_path (ObfuscatedHtml html)
  else
    write_file html_b_path (PlainHtml html).

End Envelope.

(** ** Floating point, as the collage arithmetic uses it

    Python's [float] is IEEE 754 binary64: [spec_float] at precision 53 and
    maximal exponent 1024, with the correctly rounded operations of
    [SpecFloat]. *)

Module Float64.

Definition prec : Z := 53.
Definition emax : Z := 1024.

(** [float(z)]. *)
Definition of_int (z : Z) : spec_float := binary_normalize prec emax z 0 false.

Definition div (x y : spec_float) : spec_float := SFdiv prec emax x y.
Definition mul (x y : spec_float) : spec_float := SFmul prec emax x y.
Definition sqrt (x : spec_float) : spec_float := SFsqrt prec emax x.

Definition is_zero (x : spec_float) : bool :=
  match x with S754_zero _ => true | _ => false end.

(** [a / b] on two [int]s below [2^53], where it is the quotient of the
    two conversions. *)
Definition true_div (a b : Z) : outcome spec_float :=
  if b =? 0 then Raise ZeroDivisionError
  else Ok (div (of_int a) (of_int b)).

(** [int(x)]: truncation towards zero. *)
Definition to_int (x : spec_float) : outcome Z :=
  match x with
  | S754_zero _ => Ok 0
  | S754_infinity _ => Raise OverflowError
  | S754_nan => Raise ValueError
  | S754_finite s m e =>
      let v := if 0 <=? e then Zpos m * 2 ^ e else Zpos m / 2 ^ (- e) in
      Ok (if s then - v else v)
  end.

(** [math.ceil(x)]. *)
Definition ceil (x : spec_float) : outcome Z :=
  match x with
  | S754_zero _ => Ok 0
  | S754_infinity _ => Raise OverflowError
  | S754_nan => Raise ValueError
  | S754_finite s m e =>
      if 0 <=? e then Ok ((if s then -1 else 1) * (Zpos m * 2 ^ e))
      else if s then Ok (- (Zpos m / 2 ^ (- e)))
      else Ok (- ((- Zpos m) / 2 ^ (- e)))
  end.

(** [math.sqrt(x)]. *)
Definition math_sqrt (x : spec_float) : outcome spec_float :=
  match x with
  | S754_finite true _ _ | S754_infinity true => Raise ValueError
  | _ => Ok (sqrt x)
  end.

End Float64.

(** ** Collage layout: lines 492-498 of [build_collages_for_33T] *)

Record Layout : Type := {
  cols : Z;
  rows : Z;
  cell_w : Z;
  cell_h : Z
}.

(** The least integer not below [a / b], for [0 < b]. *)
Definition ceil_div (a b : Z) : Z := - ((- a) / b).

(** [int(math.ceil(math.sqrt(a / b)))] on the exact quotient: the least
    [k >= 0] with [a / b <= k * k].  [a / b] raises on [b = 0] and
    [math.sqrt] on a negative quotient. *)
Definition ceil_sqrt_quot (a b : Z) : outcome Z :=
  if b =? 0 then Raise ZeroDivisionError
  else if ((a <? 0) && (0 <? b)) || ((0 <? a) && (b <? 0))
       then Raise ValueError
       else Ok (Z.sqrt_up (ceil_div (Z.abs a) (Z.abs b))).

(** [cols], [rows], [cell_w], [cell_h] from the number [n] of loaded images:
[[
    cols = max(3, min(12, int(math.ceil(math.sqrt(n * base_w / base_h)))))
    rows = int(math.ceil(n / cols))
    cell_w = base_w // cols
    cell_h = base_h // rows
]]
    with the two float expressions at their exact values. *)
Definition solve_layout (n base_w base_h : Z) : outcome Layout :=
  outcome_bind (ceil_sqrt_quot (n * base_w) base_h) (fun k =>
  let cols := Z.max 3 (Z.min 12 k) in
  let rows := ceil_div n cols in
  if rows =? 0 then Raise ZeroDivisionError
  else Ok {| cols := cols;
             rows := rows;
             cell_w := base_w / cols;
             cell_h := base_h / rows |}).

(** The same four lines evaluated in binary64, operation by operation. *)
Definition solve_layout_float (n base_w base_h : Z) : outcome Layout :=
  outcome_bind (Float64.true_div (n * base_w) base_h) (fun q =>
  outcome_bind (Float64.math_sqrt q) (fun s =>
  outcome_bind (Float64.ceil s) (fun k =>
  let cols := Z.max 3 (Z.min 12 k) in
  outcome_bind (Float64.true_div n cols) (fun q' =>
  outcome_bind (Float64.ceil q') (fun rows =>
  if rows =? 0 then Raise ZeroDivisionError
  else Ok {| cols := cols;
             rows := rows;
             cell_w := base_w / cols;
             cell_h := base_h / rows |}))))).

Definition Layout_eqb (a b : Layout) : bool :=
  (cols a =? cols b) && (rows a =? rows b)
  && (cell_w a =? cell_w b) && (cell_h a =? cell_h b).

Definition layouts_agree (n base_w base_h : Z) : bool :=
  match solve_layout n base_w base_h, solve_layout_float n base_w base_h with
  | Ok a, Ok b => Layout_eqb a b
  | _, _ => false
  end.

(** ** Compositor: the placement loop, lines 506-526 *)

(** The size [(new_w, new_h)] an image is resized to, lines 514-521. *)
Definition fit (im : Image) (cell_w cell_h : Z) : outcome (Z * Z) :=
  outcome_bind (Float64.true_div (width im) (height im)) (fun im_ratio =>
  outcome_bind (Float64.true_div cell_w cell_h) (fun cell_ratio =>
  if SFltb cell_ratio im_ratio then
    if Float64.is_zero im_ratio then Raise ZeroDivisionError
    else
      outcome_bind
        (Float64.to_int (Float64.div (Float64.of_int cell_w) im_ratio))
        (fun new_h => Ok (cell_w, new_h))
  else
    outcome_bind
      (Float64.to_int (Float64.mul (Float64.of_int cell_h) im_ratio))
      (fun new_w => Ok (new_w, cell_h)))).

Definition Image_new (w h : Z) (color : Z * Z * Z) : Canvas :=
  {| canvas_w := w; canvas_h := h; canvas_color := color;
     canvas_pastes := [] |}.

Definition paste (collage : Canvas) (p : Paste) : Canvas :=
  {| canvas_w := canvas_w collage; canvas_h := canvas_h collage;
     canvas_color := canvas_color collage;
     canvas_pastes := (canvas_pastes collage ++ [p])%list |}.

(** One turn of the loop body after the capacity check. *)
Definition place_one (L : Layout) (idx : Z) (im : Image) (collage : Canvas)
  : outcome Canvas :=
  let r := idx / cols L in
  let c := idx mod cols L in
  outcome_bind (fit im (cell_w L) (cell_h L)) (fun '(new_w, new_h) =>
  let x := c * cell_w L + (cell_w L - new_w) / 2 in
  let y := r * cell_h L + (cell_h L - new_h) / 2 in
  Ok (paste collage {| paste_im := im; paste_new_w := new_w;
                       paste_new_h := new_h; paste_x := x; paste_y := y |})).

(** [for idx, im in enumerate(imgs): ...], from index [idx] on. *)
Fixpoint place_loop (L : Layout) (idx : Z) (imgs : list Image)
         (collage : Canvas) : outcome Canvas :=
  match imgs with
  | [] => Ok collage
  | im :: rest =>
      let r := idx / cols L in
      if rows L <=? r then Ok collage            (* break *)
      else outcome_bind (place_one L idx im collage)
                        (place_loop L (idx + 1) rest)
  end.

(** The same traversal with the capacity check taken out. *)
Fixpoint place_all (L : Layout) (idx : Z) (imgs : list Image)
         (collage : Canvas) : outcome Canvas :=
  match imgs with
  | [] => Ok collage
  | im :: rest =>
      outcome_bind (place_one L idx im collage) (place_all L (idx + 1) rest)
  end.

(** ** Collage builder *)

Record VideoTile : Type := {
  url : string;
  platform : string;
  embed_html : option string;
  open_url : string;
  thumb_src : option string;
  thumb_src_collage : option string
}.

Definition lower_ascii (c : ascii) : ascii :=
  let n := nat_of_ascii c in
  if ((65 <=? n) && (n <=? 90))%nat then ascii_of_nat (n + 32) else c.

(** [str.lower()] on ASCII. *)
Fixpoint lower (s : string) : string :=
  match s with
  | EmptyString => EmptyString
  | String c s' => String (lower_ascii c) (lower s')
  end.

Definition startswith (s pre : string) : bool := String.prefix pre s.

Section Collage.
Context {pillow : Pillow} {ospath : OsPath}.

(** [download_image_to_pil(src, root)]: every failure inside the [try]
    ends in [return None]. *)
Definition download_image_to_pil (w : World) (src root : string)
  : option Image :=
  if startswith (lower src) "http://" || startswith (lower src) "https://"
  then
    match http_get w src with
    | None => None
    | Some r => if negb (ok r) then None else Image_open (content r)
    end
  else
    let p := if is_absolute src then src else joinpath root src in
    match lookup_file (files w) p with
    | None => None
    | Some (Binary data) => Image_open data
    | Some _ => None
    end.

(** Lines 471-476: the sources of the tiles that have one, at most
    [max_cells] of them. *)
Fixpoint collect_thumb_srcs (tiles : list VideoTile) (max_cells : Z)
         (thumb_srcs : list string) : list string :=
  match tiles with
  | [] => thumb_srcs
  | t :: tiles' =>
      match truthy (thumb_src_collage t) with
      | Some src =>
          let thumb_srcs' := (thumb_srcs ++ [src])%list in
          if max_cells <=? Z.of_nat (List.length thumb_srcs')
          then thumb_srcs'                      (* break *)
          else collect_thumb_srcs tiles' max_cells thumb_srcs'
      | None => collect_thumb_srcs tiles' max_cells thumb_srcs
      end
  end.

(** Lines 483-487: the images that load, in source order. *)
Fixpoint load_images (w : World) (thumb_srcs : list string) (root : string)
  : list Image :=
  match thumb_srcs with
  | [] => []
  | src :: rest =>
      match download_image_to_pil w src root with
      | Some im => im :: load_images w rest root
      | None => load_images w rest root
      end
  end.

(** Lines 492-543: layout, placement, the data URI and the cover. *)
Definition compose (imgs : list Image) (repo_root : string)
           (base_w base_h : Z) (timestamp : string)
  : M (option string * option string) :=
  let n := Z.of_nat (List.length imgs) in
  L <- lift (solve_layout n base_w base_h) ;;
  print (MsgBuilding n (cols L) (rows L) (cell_w L) (cell_h L)
                     base_w base_h) ;;
  collage <- lift (place_loop L 0 imgs (Image_new base_w base_h (0, 0, 0))) ;;
  let raw_bytes := png_encode (Drawn collage) in
  let real_b64 := Base64.b64encode raw_bytes in
  let real_data_uri := "data:image/png;base64," ++ real_b64 in
  print MsgRealEncoded ;;
  let cover := GaussianBlur 9 (Drawn collage) in
  let cover_name := "grid-cover-" ++ timestamp ++ ".png" in
  let cover_path := joinpath repo_root cover_name in
  write_file cover_path (Binary (png_encode cover)) ;;
  print (MsgCoverSaved cover_path) ;;
  ret (Some real_data_uri, Some cover_path).

(** Lines 478-490 and on: what follows once [thumb_srcs] is known. *)
Definition collage_from_srcs (thumb_srcs : list string) (repo_root : string)
           (base_w base_h : Z) (timestamp : string)
  : M (option string * option string) :=
  match thumb_srcs with
  | [] => print MsgNoThumbnails ;; ret (None, None)
  | _ =>
      fun w =>
        match load_images w thumb_srcs repo_root with
        | [] => (print MsgFailedToLoad ;; ret (None, None)) w
        | imgs => compose imgs repo_root base_w base_h timestamp w
        end
  end.

(** [build_collages_for_33T(tiles, repo_root, max_cells, base_w, base_h,
    timestamp)]. *)
Definition build_collages_for_33T (tiles : list VideoTile)
           (repo_root : string) (max_cells base_w base_h : Z)
           (timestamp : string) : M (option string * option string) :=
  if max_cells <=? 0 then
    print MsgCollageDisabled ;; ret (None, None)
  else
    collage_from_srcs (collect_thumb_srcs tiles max_cells [])
                      repo_root base_w base_h timestamp.

Definition ENABLE_PUBLIC_OG_COLLAGE : bool := true.

(** Step 5 of [main]: the data URI, the cover path and [og_image_rel]. *)
Definition main_build_collages (tiles : list VideoTile) (og_max : Z)
           (ts : string)
  : M (option string * option string * option string) :=
  if ENABLE_PUBLIC_OG_COLLAGE && (0 <? og_max) then
    '(real_collage_data_uri, cover_path) <-
       build_collages_for_33T tiles "." og_max 1200 630 ts ;;
    ret (real_collage_data_uri, cover_path, option_map path_name cover_path)
  else ret (None, None, None).

(** The data URI of a drawn collage (lines 529-533), its cover (lines 537
    and 540) and the path the cover is saved at (lines 538-539). *)
Definition real_data_uri_of (collage : Canvas) : string :=
  "data:image/png;base64," ++ Base64.b64encode (png_encode (Drawn collage)).

Definition cover_of (collage : Canvas) : FileContent :=
  Binary (png_encode (GaussianBlur 9 (Drawn collage))).

Definition cover_path_of (repo_root timestamp : string) : string :=
  joinpath repo_root ("grid-cover-" ++ timestamp ++ ".png").

End Collage.

(** ** Vocabulary of the statements *)

(** The layout and the canvas a list of loaded images is drawn on: the pure
    part of lines 492-526. *)
Definition draw_collage (imgs : list Image) (base_w base_h : Z)
  : outcome (Layout * Canvas) :=
  outcome_bind (solve_layout (Z.of_nat (List.length imgs)) base_w base_h)
    (fun L =>
       outcome_bind (place_loop L 0 imgs (Image_new base_w base_h (0, 0, 0)))
         (fun collage => Ok (L, collage))).

(** [k] is the ceiling of the real number [x]. *)
Definition is_ceil (x : R) (k : Z) : Prop := (IZR k - 1 < x <= IZR k)%R.

(** The layout as section 4.4 of the specification words it, over the real
    numbers: [cols = clamp(ceil(sqrt(n * canvas_w / canvas_h)), 3, 12)],
    [rows = ceil(n / cols)], and the two cell sizes by floor division. *)
Definition layout_formula (n canvas_w canvas_h : Z) (L : Layout) : Prop :=
  exists k : Z,
    is_ceil (sqrt (IZR n * IZR canvas_w / IZR canvas_h)) k /\
    cols L = Z.max 3 (Z.min 12 k) /\
    is_ceil (IZR n / IZR (cols L)) (rows L) /\
    cell_w L * cols L <= canvas_w < (cell_w L + 1) * cols L /\
    cell_h L * rows L <= canvas_h < (cell_h L + 1) * rows L.

(** The grid cell a paste lands in, as (row, column). *)
Definition paste_cell (L : Layout) (p : Paste) : Z * Z :=
  (paste_y p / cell_h L, paste_x p / cell_w L).

(** Cell number [i] of the grid, counted row by row, holds no paste. *)
Definition cell_is_background (L : Layout) (collage : Canvas) (i : Z) : Prop :=
  forall p, In p (canvas_pastes collage) ->
            paste_cell L p <> (i / cols L, i mod cols L).

(** [p] is the paste the loop body makes of image [im] at index [idx]:
    resized by [fit] and centred in cell [(idx // cols, idx % cols)]. *)
Definition pasted_at (L : Layout) (idx : Z) (im : Image) (p : Paste) : Prop :=
  paste_im p = im /\
  fit im (cell_w L) (cell_h L) = Ok (paste_new_w p, paste_new_h p) /\
  paste_x p = (idx mod cols L) * cell_w L + (cell_w L - paste_new_w p) / 2 /\
  paste_y p = (idx / cols L) * cell_h L + (cell_h L - paste_new_h p) / 2.

(** [ps] are the pastes of [imgs], one each and in order, at the indices
    from [idx] on. *)
Fixpoint row_major (L : Layout) (idx : Z) (imgs : list Image)
         (ps : list Paste) : Prop :=
  match imgs, ps with
  | [], [] => True
  | im :: imgs', p :: ps' => pasted_at L idx im p /\ row_major L (idx + 1) imgs' ps'
  | _, _ => False
  end.

(** The world after [e] was logged and nothing else happened. *)
Definition logged (e : Event) (w : World) : World :=
  {| files := files w; http_get := http_get w; entropy := entropy w;
     drawn := drawn w; tty := tty w; log := e :: log w |}.

(** The world after [c] was written at [path] and nothing else happened. *)
Definition written (path : string) (c : FileContent) (w : World) : World :=
  {| files := (path, c) :: files w; http_get := http_get w;
     entropy := entropy w; drawn := drawn w; tty := tty w;
     log := WriteFile path :: log w |}.

(** The call ended in [sys.exit]. *)
Definition exits {A} (o : outcome A) : bool :=
  match o with
  | Exit _ => true
  | _ => false
  end.

(** The [n] bytes [os.urandom] hands out [offset] bytes after the ones
    already drawn. *)
Definition entropy_bytes (w : World) (offset n : nat) : bytes :=
  map (fun i => entropy w (drawn w + offset + i)%nat) (seq 0 n).

Definition is_crypto_event (e : Event) : bool :=
  match e with
  | Urandom _ | Pbkdf2Derive _ _ _ | AesGcmEncrypt _ _ => true
  | _ => false
  end.

(** ** Small instances of the libraries, for evaluating the model *)

Module Toy.

Definition digest (bs : bytes) : N :=
  fold_right (fun b acc => (Byte.to_N b + 31 * acc) mod 256)%N 7%N bs.

Definition shift_byte (k : N) (b : byte) : byte :=
  Base64.byte_of_N (Byte.to_N b + k mod 256).

Definition unshift_byte (k : N) (b : byte) : byte :=
  Base64.byte_of_N (Byte.to_N b + 256 - k mod 256).

Definition kdf (length : Z) (salt : bytes) (iterations : Z)
           (password : bytes) : bytes :=
  map (fun i => Base64.byte_of_N
                  (digest (password ++ salt)%list * (N.of_nat i + 1)
                   + Z.to_N iterations))
      (seq 0 (Z.to_nat length)).

Definition tag (key nonce : bytes) : bytes :=
  repeat (Base64.byte_of_N (digest (key ++ nonce)%list)) 16.

Definition seal (key nonce data : bytes) : bytes :=
  (map (shift_byte (digest key)) data ++ tag key nonce)%list.

Fixpoint bytes_eqb (a b : bytes) : bool :=
  match a, b with
  | [], [] => true
  | x :: a', y :: b' => Byte.eqb x y && bytes_eqb a' b'
  | _, _ => false
  end.

Definition open (key nonce data : bytes) : option bytes :=
  let n := (List.length data - 16)%nat in
  if (List.length data <? 16)%nat then None
  else if bytes_eqb (skipn n data) (tag key nonce)
       then Some (map (unshift_byte (digest key)) (firstn n data))
       else None.

#[export] Instance crypto : Crypto :=
  {| PBKDF2HMAC_SHA256 := kdf;
     AESGCM_encrypt := seal;
     AESGCM_decrypt := open |}.

(** A two-byte header carries the size. *)
Definition image_open (data : bytes) : option Image :=
  match data with
  | w :: h :: rest =>
      Some {| width := Z.of_N (Byte.to_N w);
              height := Z.of_N (Byte.to_N h);
              pixels := rest |}
  | _ => None
  end.

Fixpoint encode_picture (p : Picture) : bytes :=
  match p with
  | Drawn c =>
      x01 :: flat_map (fun q => x02 :: pixels (paste_im q)) (canvas_pastes c)
  | GaussianBlur r q => x03 :: Base64.byte_of_N (Z.to_N r) :: encode_picture q
  end.

#[export] Instance pillow : Pillow :=
  {| Image_open := image_open; png_encode := encode_picture |}.

#[export] Instance ospath : OsPath :=
  {| is_absolute := fun p => startswith p "/";
     joinpath := fun root p =>
                   if String.eqb root "." then p else root ++ "/" ++ p;
     path_name := fun p => p |}.

(** A world with two files, one of them a 4 by 3 image, and no network. *)
Definition world : World :=
  {| files := [("thumbs/shot_001.png", Binary [x04; x03; x2a]);
               ("notes.txt", PlainHtml "hello")];
     http_get := fun _ => None;
     entropy := fun i => Base64.byte_of_N (N.of_nat (7 * i + 3));
     drawn := 0;
     tty := [];
     log := [] |}.

Definition photo : Image :=
  {| width := 4; height := 3; pixels := [x2a] |}.

Definition banner : Image :=
  {| width := 16; height := 9; pixels := [x2b] |}.

(** The same world with [lines] waiting at the terminal. *)
Definition typing (lines : list string) : World :=
  {| files := files world; http_get := http_get world;
     entropy := entropy world; drawn := drawn world;
     tty := lines; log := log world |}.

Definition tile (src : option string) : VideoTile :=
  {| url := "https://example.org/v"; platform := "other";
     embed_html := None; open_url := "https://example.org/v";
     thumb_src := None; thumb_src_collage := src |}.

End Toy.

(** ** Platform detection and video ids, lines 69-91 *)

(** [sub in s]. *)
Fixpoint contains (s sub : string) : bool :=
  String.prefix sub s
  || match s with
     | EmptyString => false
     | String _ s' => contains s' sub
     end.

(** [detect_platform(url)]. *)
Definition detect_platform (url : string) : string :=
  let u := lower url in
  if contains u "youtube.com" || contains u "youtu.be" then "youtube"
  else if contains u "rumble.com" then "rumble"
  else if contains u "vimeo.com" then "vimeo"
  else if contains u "tiktok.com" then "tiktok"
  else if contains u "instagram.com" || contains u "instagr.am" then "instagram"
  else if contains u "twitter.com" || contains u "x.com" then "twitter"
  else if contains u "facebook.com" then "facebook"
  else "other".

(** The dictionary [PLATFORM_LABELS], lines 391-400. *)
Definition PLATFORM_LABELS : list (string * string) :=
  [ ("youtube", "YouTube"); ("rumble", "Rumble"); ("vimeo", "Vimeo");
    ("twitter", "Twitter / X"); ("tiktok", "TikTok");
    ("instagram", "Instagram"); ("facebook", "Facebook");
    ("other", "Video") ].

(** [d.get(key)] on a dictionary kept as an association list. *)
Fixpoint dict_get (d : list (string * string)) (key : string) : option string :=
  match d with
  | [] => None
  | (k, v) :: d' => if String.eqb k key then Some v else dict_get d' key
  end.

(** The screenshot platforms of step 3 of [main], line 1226. *)
Definition needs_screenshot (url : string) : bool :=
  let p := detect_platform url in
  String.eqb p "rumble" || String.eqb p "twitter"
  || String.eqb p "tiktok" || String.eqb p "instagram".

(** The character class [[A-Za-z0-9_\-]]. *)
Definition is_id_char (c : ascii) : bool :=
  let n := nat_of_ascii c in
  ((65 <=? n) && (n <=? 90) || (97 <=? n) && (n <=? 122)
   || (48 <=? n) && (n <=? 57) || (n =? 95) || (n =? 45))%nat.

Fixpoint take_while (p : ascii -> bool) (s : string) : string :=
  match s with
  | EmptyString => EmptyString
  | String c s' => if p c then String c (take_while p s') else EmptyString
  end.

Fixpoint drop (n : nat) (s : string) : string :=
  match n, s with
  | O, _ => s
  | S n', String _ s' => drop n' s'
  | S _, EmptyString => EmptyString
  end.

(** The pattern after one alternative [pre] of its group, matched at the
    start of [s]: the greedy [{6,}] takes the whole run of id characters and
    fails on a run shorter than six. *)
Definition id_after (pre s : string) : option string :=
  if String.prefix pre s then
    let run := take_while is_id_char (drop (String.length pre) s) in
    if (6 <=? String.length run)%nat then Some run else None
  else None.

(** [(?:v=|youtu\.be/)([A-Za-z0-9_\-]{6,})] matched at the start of [s]. *)
Definition match_youtube_id (s : string) : option string :=
  match id_after "v=" s with
  | Some vid => Some vid
  | None => id_after "youtu.be/" s
  end.

(** [re.search]: the match at the leftmost position that has one. *)
Fixpoint search_youtube_id (s : string) : option string :=
  match match_youtube_id s with
  | Some vid => Some vid
  | None =>
      match s with
      | EmptyString => None
      | String _ s' => search_youtube_id s'
      end
  end.

(** Every character of [s] satisfies [p]. *)
Fixpoint string_forall (p : ascii -> bool) (s : string) : bool :=
  match s with
  | EmptyString => true
  | String c s' => p c && string_forall p s'
  end.

(** [s] begins with a character that satisfies [p]. *)
Definition starts_with (p : ascii -> bool) (s : string) : bool :=
  match s with
  | EmptyString => false
  | String c _ => p c
  end.

(** [extract_youtube_id(url)]. *)
Definition extract_youtube_id (url : string) : option string :=
  search_youtube_id url.

(** The [youtube] branch of [get_lightweight_thumb], lines 158-161, and the
    [embed_url] of the [youtube] branch of [build_embed], lines 334-338. *)
Definition youtube_thumb (url : string) : option string :=
  match truthy (extract_youtube_id url) with
  | Some vid => Some ("https://img.youtube.com/vi/" ++ vid ++ "/hqdefault.jpg")
  | None => None
  end.

Definition youtube_embed_url (url : string) : option string :=
  match truthy (extract_youtube_id url) with
  | Some vid => Some ("https://www.youtube.com/embed/" ++ vid)
  | None => None
  end.

(** ** Step 2 of [main]: de-duplication, lines 1212-1217 *)

(** [u in seen], the set kept as the list of its members. *)
Fixpoint mem (u : string) (seen : list string) : bool :=
  match seen with
  | [] => false
  | v :: seen' => String.eqb v u || mem u seen'
  end.

(** The loop, from its state [(seen, urls)] on. *)
Fixpoint dedup_loop (urls_raw seen urls : list string) : list string :=
  match urls_raw with
  | [] => urls
  | u :: rest =>
      if mem u seen then dedup_loop rest seen urls
      else dedup_loop rest (u :: seen) (urls ++ [u])%list
  end.

Definition unique_urls (urls_raw : list string) : list string :=
  dedup_loop urls_raw [] [].

(** The sources of the tiles that have one, in tile order. *)
Definition thumb_sources (tiles : list VideoTile) : list string :=
  flat_map (fun t => match truthy (thumb_src_collage t) with
                     | Some src => [src]
                     | None => []
                     end) tiles.

(** ** Command line, lines 1144-1183 *)

(** Python's [int(text)]: [None] stands for its [ValueError]. *)
Class PyInt : Type := {
  py_int : string -> option Z
}.

Record Args : Type := {
  input_path : string;
  arg_cols : option Z;
  obfuscate : bool;
  screenshot_mode : bool;
  engine : string;
  og_max : Z;
  aes_lock : bool
}.

(** How [parse_args] ends. *)
Inductive parsed (A : Type) : Type :=
| Returned (a : A)
| RaisedIndexError
| Exited (code : Z).
Arguments Returned {A} a.
Arguments RaisedIndexError {A}.
Arguments Exited {A} code.

Section CommandLine.
Context {pyint : PyInt}.

(** One turn of [for arg in argv[2:]]. *)
Definition parse_arg (st : Args) (arg : string) : Args :=
  let al := lower arg in
  if mem al ["obf"; "obs"; "obfs"; "obfuscate"] then
    {| input_path := input_path st; arg_cols := arg_cols st;
       obfuscate := true; screenshot_mode := screenshot_mode st;
       engine := engine st; og_max := og_max st; aes_lock := aes_lock st |}
  else if mem al ["aes"; "aeslock"; "lock"] then
    {| input_path := input_path st; arg_cols := arg_cols st;
       obfuscate := obfuscate st; screenshot_mode := screenshot_mode st;
       engine := engine st; og_max := og_max st; aes_lock := true |}
  else if mem al ["screenshot"; "screens"; "shots"] then
    {| input_path := input_path st; arg_cols := arg_cols st;
       obfuscate := obfuscate st; screenshot_mode := true;
       engine := engine st; og_max := og_max st; aes_lock := aes_lock st |}
  else if mem al ["selenium"; "sel"; "s"] then
    {| input_path := input_path st; arg_cols := arg_cols st;
       obfuscate := obfuscate st; screenshot_mode := screenshot_mode st;
       engine := "selenium"; og_max := og_max st; aes_lock := aes_lock st |}
  else if startswith al "ogmax=" then
    match py_int (drop 6 al) with           (* al.split("=", 1)[1] *)
    | Some v =>
        {| input_path := input_path st; arg_cols := arg_cols st;
           obfuscate := obfuscate st; screenshot_mode := screenshot_mode st;
           engine := engine st; og_max := Z.max 1 v; aes_lock := aes_lock st |}
    | None => st
    end
  else
    match py_int arg with
    | Some v =>
        {| input_path := input_path st; arg_cols := Some v;
           obfuscate := obfuscate st; screenshot_mode := screenshot_mode st;
           engine := engine st; og_max := og_max st; aes_lock := aes_lock st |}
    | None => st
    end.

(** [parse_args(argv)]: whether the usage line was printed, and how the call
    ends.  With fewer than two arguments [argv[1]] raises. *)
Definition parse_args (argv : list string) : bool * parsed Args :=
  let usage := (List.length argv <? 2)%nat in
  match argv with
  | _ :: first :: rest =>
      let st :=
        fold_left parse_arg rest
          {| input_path := first; arg_cols := None; obfuscate := false;
             screenshot_mode := false; engine := "selenium"; og_max := 63;
             aes_lock := false |} in
      if negb (String.eqb (engine st) "selenium") then (usage, Exited 1)
      else (usage, Returned st)
  | _ => (usage, RaisedIndexError)
  end.

End CommandLine.

(** ** Obfuscation wrapper, lines 798-834 *)

Fixpoint take (n : nat) (s : string) : string :=
  match n, s with
  | O, _ => EmptyString
  | S n', String c s' => String c (take n' s')
  | S _, EmptyString => EmptyString
  end.

Fixpoint chunk_loop (fuel width : nat) (s : string) : list string :=
  match fuel with
  | O => []
  | S fuel' =>
      match s with
      | EmptyString => []
      | _ => take width s :: chunk_loop fuel' width (drop width s)
      end
  end.

(** [textwrap.wrap(text, width)] on a text with no white space and no
    hyphen, which is what Base64 gives: the text cut every [width]
    characters, and no chunk for the empty text. *)
Definition textwrap_wrap (text : string) (width : nat) : list string :=
  chunk_loop (String.length text) width text.

(** The array [chunks] that [make_obfuscated_wrapper] formats into the
    page; the rest of the page is fixed markup and script. *)
Record ObfuscatedPage : Type := {
  chunks : list string
}.

(** [make_obfuscated_wrapper(html)]. *)
Definition make_obfuscated_wrapper (html : string) : ObfuscatedPage :=
  let b64 := Base64.b64encode (list_byte_of_string html) in
  {| chunks := textwrap_wrap b64 4000 |}.

(** [chunks.join("")]. *)
Fixpoint join (l : list string) : string :=
  match l with
  | [] => EmptyString
  | c :: l' => c ++ join l'
  end.

Definition in_range (lo hi : N) (b : byte) : bool :=
  (lo <=? Byte.to_N b)%N && (Byte.to_N b <=? hi)%N.

(** Continuation byte, [10xxxxxx]. *)
Definition is_cont (b : byte) : bool := in_range 128 191 b.

(** The bytes are well-formed UTF-8: what [decodeURIComponent] asks of the
    octets it decodes (shortest form, no surrogate, at most U+10FFFF). *)
Fixpoint utf8_valid_loop (fuel : nat) (bs : bytes) : bool :=
  match fuel with
  | O => match bs with [] => true | _ => false end
  | S fuel' =>
      match bs with
      | [] => true
      | b0 :: r0 =>
          if in_range 0 127 b0 then utf8_valid_loop fuel' r0
          else
            match r0 with
            | [] => false
            | b1 :: r1 =>
                if in_range 194 223 b0 then
                  is_cont b1 && utf8_valid_loop fuel' r1
                else
                  match r1 with
                  | [] => false
                  | b2 :: r2 =>
                      if in_range 224 224 b0 then
                        in_range 160 191 b1 && is_cont b2
                        && utf8_valid_loop fuel' r2
                      else if in_range 237 237 b0 then
                        in_range 128 159 b1 && is_cont b2
                        && utf8_valid_loop fuel' r2
                      else if in_range 225 239 b0 then
                        is_cont b1 && is_cont b2 && utf8_valid_loop fuel' r2
                      else
                        match r2 with
                        | [] => false
                        | b3 :: r3 =>
                            if in_range 240 240 b0 then
                              in_range 144 191 b1 && is_cont b2 && is_cont b3
                              && utf8_valid_loop fuel' r3
                            else if in_range 241 243 b0 then
                              is_cont b1 && is_cont b2 && is_cont b3
                              && utf8_valid_loop fuel' r3
                            else if in_range 244 244 b0 then
                              in_range 128 143 b1 && is_cont b2 && is_cont b3
                              && utf8_valid_loop fuel' r3
                            else false
                        end
                  end
            end
      end
  end.

Definition utf8_valid (bs : bytes) : bool :=
  utf8_valid_loop (List.length bs) bs.

(** The text whose characters have the given bytes as code points (what
    [atob] returns), in UTF-8. *)
Definition latin1_text (bin : bytes) : string :=
  string_of_list_byte
    (flat_map (fun b =>
                 let n := Byte.to_N b in
                 if (n <? 128)%N then [b]
                 else [Base64.byte_of_N (192 + n / 64);
                       Base64.byte_of_N (128 + n mod 64)]) bin).

(** [b64ToUtf8(str)] of the loader: [None] when [atob] throws, which the
    [catch] branch, calling [atob] again, does not survive. *)
Definition b64ToUtf8 (str : string) : option string :=
  match Base64.base64ToArrayBuffer str with
  | None => None
  | Some bin =>
      if utf8_valid bin then Some (string_of_list_byte bin)
      else Some (latin1_text bin)
  end.

(** The script of the page: what it hands to [document.write]. *)
Definition obfuscated_loader (page : ObfuscatedPage) : option string :=
  b64ToUtf8 (join (chunks page)).

(** ** The form of the protected page, lines 1063-1070 *)

(** JavaScript's [WhiteSpace] and [LineTerminator] characters, by their
    UTF-8 bytes: the six of one byte, U+00A0, and those of three bytes. *)
Definition space1 (c0 : N) : bool :=
  existsb (N.eqb c0) [9; 10; 11; 12; 13; 32]%N.

Definition space2 (c0 c1 : N) : bool :=
  ((c0 =? 194) && (c1 =? 160))%N.                               (* U+00A0 *)

Definition space3 (c0 c1 c2 : N) : bool :=
  ((c0 =? 225) && (c1 =? 154) && (c2 =? 128)                    (* U+1680 *)
   || (c0 =? 226) && (c1 =? 128)
      && ((128 <=? c2) && (c2 <=? 138)                     (* U+2000-200A *)
          || existsb (N.eqb c2) [168; 169; 175])     (* U+2028, 2029, 202F *)
   || (c0 =? 226) && (c1 =? 129) && (c2 =? 159)                 (* U+205F *)
   || (c0 =? 227) && (c1 =? 128) && (c2 =? 128)                 (* U+3000 *)
   || (c0 =? 239) && (c1 =? 187) && (c2 =? 191))%N.             (* U+FEFF *)

(** The byte length of the white-space character the codes begin with;
    [0] when they begin with none. *)
Definition space_length (s : list N) : nat :=
  match s with
  | [] => O
  | c0 :: r0 =>
      if space1 c0 then 1%nat
      else
        match r0 with
        | [] => O
        | c1 :: r1 =>
            if space2 c0 c1 then 2%nat
            else
              match r1 with
              | [] => O
              | c2 :: _ => if space3 c0 c1 c2 then 3%nat else O
              end
        end
  end.

(** The same at the end of a text, on its codes in reverse. *)
Definition space_length_rev (s : list N) : nat :=
  match s with
  | [] => O
  | c0 :: r0 =>
      if space1 c0 then 1%nat
      else
        match r0 with
        | [] => O
        | c1 :: r1 =>
            if space2 c1 c0 then 2%nat
            else
              match r1 with
              | [] => O
              | c2 :: _ => if space3 c2 c1 c0 then 3%nat else O
              end
        end
  end.

Fixpoint strip (len : list N -> nat) (fuel : nat) (s : list N) : list N :=
  match fuel with
  | O => s
  | S fuel' =>
      match len s with
      | O => s
      | n => strip len fuel' (skipn n s)
      end
  end.

Definition codes (s : string) : list N := map N_of_ascii (list_ascii_of_string s).

Definition text (cs : list N) : string :=
  string_of_list_ascii (map ascii_of_N cs).

(** [value.trim()]. *)
Definition js_trim (value : string) : string :=
  let s := codes value in
  let s1 := strip space_length (List.length s) s in
  let s2 := strip space_length_rev (List.length s1) (rev s1) in
  text (rev s2).

(** What the form does with a submission. *)
Inductive Submission : Type :=
| PleaseEnterPassword                 (* "Please enter a password." *)
| Tried (u : Unlock).                 (* [unlockWithPassword(pw)] ran *)

Section Form.
Context {crypto : Crypto}.

(** The [submit] listener, on the text of the password field. *)
Definition on_submit (page : ProtectedPage) (value : string) : Submission :=
  let pw := js_trim value in
  if String.eqb pw "" then PleaseEnterPassword
  else Tried (unlockWithPassword page pw).

End Form.

(** ** Waiting for the pages to be served, lines 1105-1116 *)

Inductive WaitEvent : Type :=
| WaitGet (i : nat)          (* the [i]-th [requests.get(url, timeout=6)] *)
| WaitServing                (* "GitHub is now serving" *)
| WaitCheck (i : nat)        (* "GitHub check i" *)
| WaitSleep (delay : Z)      (* [time.sleep(delay)] *)
| WaitGaveUp.                (* "Gave up waiting" *)

(** The loop from check [i] on, with [remaining] checks left; [probe i] is
    what the [i]-th request gives, [None] when it raises. *)
Fixpoint wait_loop (probe : nat -> option Response) (delay : Z)
         (i remaining : nat) : list WaitEvent :=
  match remaining with
  | O => [WaitGaveUp]
  | S remaining' =>
      WaitGet i
      :: match probe i with
         | Some r =>
             if ok r then [WaitServing]
             else WaitCheck i :: WaitSleep delay
                  :: wait_loop probe delay (S i) remaining'
         | None =>
             WaitCheck i :: WaitSleep delay
             :: wait_loop probe delay (S i) remaining'
         end
  end.

(** [wait_for_github(url, max_checks, delay)]: what it does, in order. *)
Definition wait_for_github (probe : nat -> option Response)
           (max_checks delay : Z) : list WaitEvent :=
  wait_loop probe delay 1 (Z.to_nat max_checks).

Definition is_get (e : WaitEvent) : bool :=
  match e with WaitGet _ => true | _ => false end.

Definition is_sleep (e : WaitEvent) : bool :=
  match e with WaitSleep _ => true | _ => false end.

Definition served (probe : nat -> option Response) (i : nat) : bool :=
  match probe i with
  | Some r => ok r
  | None => false
  end.

(** ** Removing the screenshots, lines 246-272 *)

Definition remove_path (p : string) (fs : list (string * FileContent))
  : list (string * FileContent) :=
  filter (fun e => negb (String.eqb (fst e) p)) fs.

Section Cleanup.
Context {ospath : OsPath}.

(** Lines 252-254: the path of one value of the map. *)
Definition screenshot_path (repo_root rel : string) : string :=
  if is_absolute rel then rel else joinpath repo_root rel.

(** [p.unlink()] inside its [try]: a missing file and a file the system
    refuses to delete ([locked]) are both left as they are. *)
Definition unlink (locked : string -> bool) (p : string)
           (fs : list (string * FileContent)) : list (string * FileContent) :=
  if locked p then fs else remove_path p fs.

(** [cleanup_screenshot_files(screenshot_rel_map, repo_root)] on the files;
    the map is the list of its items.  The final [rmdir] removes an empty
    directory only and touches no file. *)
Definition cleanup_screenshot_files (locked : string -> bool)
           (screenshot_rel_map : list (string * string)) (repo_root : string)
           (fs : list (string * FileContent)) : list (string * FileContent) :=
  fold_left (fun fs rel => unlink locked (screenshot_path repo_root rel) fs)
            (map snd screenshot_rel_map) fs.

End Cleanup.

(** ** More small instances *)

Module Toy2.

Fixpoint digits_value (acc : Z) (s : string) : option Z :=
  match s with
  | EmptyString => Some acc
  | String c s' =>
      let n := nat_of_ascii c in
      if ((48 <=? n) && (n <=? 57))%nat
      then digits_value (10 * acc + Z.of_nat (n - 48)) s'
      else None
  end.

(** Plain decimal numerals only. *)
#[export] Instance pyint : PyInt :=
  {| py_int := fun s => match s with
                        | EmptyString => None
                        | _ => digits_value 0 s
                        end |}.

End Toy2.

(** ** Base64 round trip *)

Module Base64Facts.
Import Base64.

Lemma value_digit (n : N) : (n < 64)%N -> value (digit n) = Some n.
Proof.
  intros H.
  assert (Hall : forallb (fun k => match value (digit (N.of_nat k)) with
                                   | Some m => N.eqb m (N.of_nat k)
                                   | None => false
                                   end) (seq 0 64) = true)
    by (vm_compute; reflexivity).
  rewrite forallb_forall in Hall.
  specialize (Hall (N.to_nat n)).
  rewrite N2Nat.id in Hall.
  destruct (value (digit n)) as [m|].
  - f_equal. apply N.eqb_eq. apply Hall. apply in_seq. lia.
  - discriminate Hall. apply in_seq. lia.
Qed.

Lemma digit_not_pad (n : N) : (n < 64)%N -> Ascii.eqb (digit n) pad = false.
Proof.
  intros H.
  assert (Hall : forallb (fun k => negb (Ascii.eqb (digit (N.of_nat k)) pad))
                   (seq 0 64) = true)
    by (vm_compute; reflexivity).
  rewrite forallb_forall in Hall.
  specialize (Hall (N.to_nat n)).
  rewrite N2Nat.id in Hall.
  apply negb_true_iff, Hall, in_seq. lia.
Qed.

Lemma byte_of_to_N (b : byte) : byte_of_N (Byte.to_N b) = b.
Proof.
  unfold byte_of_N.
  pose proof (Byte.to_N_bounded b) as Hb.
  rewrite N.mod_small by lia.
  now rewrite Byte.of_to_N.
Qed.

Lemma byte_of_N_eq (n : N) (b : byte) : n = Byte.to_N b -> byte_of_N n = b.
Proof. intros ->. apply byte_of_to_N. Qed.

Lemma to_N_lt (b : byte) : (Byte.to_N b < 256)%N.
Proof. pose proof (Byte.to_N_bounded b). lia. Qed.

Ltac bound_bytes :=
  repeat match goal with
         | b : byte |- _ =>
             lazymatch goal with
             | _ : (Byte.to_N b < 256)%N |- _ => fail
             | _ => pose proof (to_N_lt b)
             end
         end.

Ltac euclid := bound_bytes; zify; Z.to_euclidean_division_equations; lia.

(** Reading back a digit that was written from a sextet. *)
Ltac read_digits :=
  repeat first
    [ rewrite value_digit by euclid
    | rewrite digit_not_pad by euclid ].

Lemma list_ind3 (P : bytes -> Prop) :
  P [] ->
  (forall b0, P [b0]) ->
  (forall b0 b1, P [b0; b1]) ->
  (forall b0 b1 b2 rest, P rest -> P (b0 :: b1 :: b2 :: rest)) ->
  forall bs, P bs.
Proof.
  intros H0 H1 H2 H3.
  fix IH 1.
  intros [|b0 [|b1 [|b2 rest]]].
  - exact H0.
  - apply H1.
  - apply H2.
  - apply H3, IH.
Qed.

Lemma length_b64encode (bs : bytes) :
  List.length (list_ascii_of_string (b64encode bs))
  = (4 * ((List.length bs + 2) / 3))%nat.
Proof.
  induction bs as [| b0 | b0 b1 | b0 b1 b2 rest IH] using list_ind3;
    try reflexivity.
  cbn [b64encode list_ascii_of_string List.length].
  rewrite IH.
  replace (S (S (S (List.length rest))) + 2)%nat
    with (List.length rest + 2 + 1 * 3)%nat by lia.
  rewrite Nat.div_add by lia. lia.
Qed.

Lemma decode_groups_b64encode (bs : bytes) :
  forall fuel,
    (List.length (list_ascii_of_string (b64encode bs)) <= fuel)%nat ->
    decode_groups fuel (list_ascii_of_string (b64encode bs)) = Some bs.
Proof.
  induction bs as [| b0 | b0 b1 | b0 b1 b2 rest IH] using list_ind3;
    intros fuel Hfuel.
  - destruct fuel; reflexivity.
  - destruct fuel as [|fuel]; [cbn in Hfuel; lia|].
    cbn [b64encode list_ascii_of_string decode_groups].
    read_digits. rewrite Ascii.eqb_refl.
    do 2 f_equal. apply byte_of_N_eq. euclid.
  - destruct fuel as [|fuel]; [cbn in Hfuel; lia|].
    cbn [b64encode list_ascii_of_string decode_groups].
    read_digits. rewrite Ascii.eqb_refl.
    f_equal. f_equal; [|f_equal].
    + apply byte_of_N_eq. euclid.
    + apply byte_of_N_eq. euclid.
  - destruct fuel as [|fuel]; [cbn in Hfuel; lia|].
    cbn [b64encode list_ascii_of_string decode_groups].
    read_digits.
    rewrite IH by (cbn [b64encode list_ascii_of_string List.length] in Hfuel; lia).
    cbn [option_map]. f_equal. f_equal; [|f_equal; [|f_equal]].
    + apply byte_of_N_eq. euclid.
    + apply byte_of_N_eq. euclid.
    + apply byte_of_N_eq. euclid.
Qed.

(** What [b64encode] writes, [base64ToArrayBuffer] reads back. *)
Lemma base64ToArrayBuffer_b64encode (bs : bytes) :
  base64ToArrayBuffer (b64encode bs) = Some bs.
Proof. unfold base64ToArrayBuffer. now apply decode_groups_b64encode. Qed.

End Base64Facts.


(** ** Layout *)

Lemma ceil_div_spec (a b : Z) :
  0 < b -> (ceil_div a b - 1) * b < a <= ceil_div a b * b.
Proof.
  intros Hb. unfold ceil_div.
  pose proof (Z.div_mod (- a) b ltac:(lia)) as Hdm.
  pose proof (Z.mod_pos_bound (- a) b Hb) as Hm.
  nia.
Qed.

Lemma ceil_div_pos (a b : Z) : 0 < a -> 0 < b -> 1 <= ceil_div a b.
Proof.
  intros Ha Hb. pose proof (ceil_div_spec a b Hb). nia.
Qed.

Lemma Rlt_quot (a b c : R) : (0 < c -> a * c < b -> a < b / c)%R.
Proof.
  intros Hc H. apply Rmult_lt_reg_r with c; [assumption|].
  replace (b / c * c)%R with b by (field; lra). assumption.
Qed.

Lemma Rquot_le (a b c : R) : (0 < c -> a <= b * c -> a / c <= b)%R.
Proof.
  intros Hc H. apply Rmult_le_reg_r with c; [assumption|].
  replace (a / c * c)%R with a by (field; lra). assumption.
Qed.

(** The integer that [ceil_sqrt_quot] returns is the ceiling of the real
    square root of the real quotient. *)
Lemma ceil_sqrt_quot_real (a b : Z) :
  0 < a -> 0 < b ->
  exists k, ceil_sqrt_quot a b = Ok k /\ 1 <= k /\
            is_ceil (sqrt (IZR a / IZR b)) k.
Proof.
  intros Ha Hb. unfold ceil_sqrt_quot.
  replace (b =? 0) with false by (symmetry; apply Z.eqb_neq; lia).
  replace (a <? 0) with false by (symmetry; apply Z.ltb_ge; lia).
  replace (b <? 0) with false by (symmetry; apply Z.ltb_ge; lia).
  rewrite andb_false_r. cbn [andb orb].
  rewrite !Z.abs_eq by lia.
  set (q := ceil_div a b). set (k := Z.sqrt_up q).
  pose proof (ceil_div_spec a b Hb) as Hq. fold q in Hq.
  assert (Hq1 : 1 <= q) by (apply ceil_div_pos; assumption).
  pose proof (Z.sqrt_up_spec q ltac:(lia)) as Hk. fold k in Hk.
  pose proof (Z.sqrt_up_nonneg q) as Hk0. fold k in Hk0.
  rewrite <- Z.sub_1_r in Hk.
  assert (Hk1 : 1 <= k) by nia.
  exists k. split; [reflexivity|]. split; [assumption|].
  assert (HbR : (0 < IZR b)%R) by (apply IZR_lt; assumption).
  assert (Hlo : (k - 1) * (k - 1) * b < a) by nia.
  assert (Hhi : a <= k * k * b) by nia.
  apply IZR_lt in Hlo. apply IZR_le in Hhi.
  rewrite !mult_IZR in Hlo, Hhi. rewrite minus_IZR in Hlo.
  assert (HkR : (1 <= IZR k)%R) by (apply IZR_le; assumption).
  unfold is_ceil. split.
  - rewrite <- (sqrt_square (IZR k - 1)) by lra.
    apply sqrt_lt_1_alt. split.
    + apply Rmult_le_pos; lra.
    + apply Rlt_quot; lra.
  - rewrite <- (sqrt_square (IZR k)) by lra.
    apply sqrt_le_1_alt.
    apply Rquot_le; lra.
Qed.

Lemma ceil_div_real (a b : Z) :
  0 < b -> is_ceil (IZR a / IZR b) (ceil_div a b).
Proof.
  intros Hb. pose proof (ceil_div_spec a b Hb) as [Hlo Hhi].
  assert (HbR : (0 < IZR b)%R) by (apply IZR_lt; assumption).
  apply IZR_lt in Hlo. apply IZR_le in Hhi.
  rewrite mult_IZR in Hlo, Hhi. rewrite minus_IZR in Hlo.
  unfold is_ceil. split.
  - apply Rlt_quot; lra.
  - apply Rquot_le; lra.
Qed.

(** On a positive count and a positive canvas the layout exists, and its
    four fields are these. *)
Lemma solve_layout_ok (n base_w base_h : Z) :
  1 <= n -> 0 < base_w -> 0 < base_h ->
  exists k,
    ceil_sqrt_quot (n * base_w) base_h = Ok k /\
    solve_layout n base_w base_h =
      Ok {| cols := Z.max 3 (Z.min 12 k);
            rows := ceil_div n (Z.max 3 (Z.min 12 k));
            cell_w := base_w / Z.max 3 (Z.min 12 k);
            cell_h := base_h / ceil_div n (Z.max 3 (Z.min 12 k)) |}.
Proof.
  intros Hn Hw Hh.
  destruct (ceil_sqrt_quot_real (n * base_w) base_h ltac:(nia) Hh)
    as (k & Hk & _ & _).
  exists k. split; [assumption|].
  unfold solve_layout. rewrite Hk. cbn [outcome_bind].
  assert (Hr : 1 <= ceil_div n (Z.max 3 (Z.min 12 k)))
    by (apply ceil_div_pos; lia).
  replace (ceil_div n (Z.max 3 (Z.min 12 k)) =? 0) with false
    by (symmetry; apply Z.eqb_neq; lia).
  reflexivity.
Qed.



(** The exact layout and its binary64 evaluation give the same four numbers
    on the canvas [main] passes, 1200 by 630, for every count of loaded
    images up to 4096. *)
Lemma layouts_agree_on_main_canvas :
  forallb (fun n => layouts_agree (Z.of_nat n) 1200 630) (seq 1 4096) = true.
Proof. vm_compute. reflexivity. Qed.

(** C3, as stated, fails: five thumbnails on a 1200 by 630 canvas do not get
    three columns. *)
Lemma five_thumbnails_not_three_columns :
  ~ (exists L, solve_layout 5 1200 630 = Ok L /\ cols L = 3 /\ rows L = 2).
Proof.
  intros (L & HL & Hc & _).
  vm_compute in HL. injection HL as <-. discriminate Hc.
Qed.

(** C3, amended: five thumbnails on a 1200 by 630 canvas get four columns
    and two rows, in exact arithmetic and in binary64 alike; the cells are
    300 by 315. *)
Theorem five_thumbnails_layout :
  solve_layout 5 1200 630
    = Ok {| cols := 4; rows := 2; cell_w := 300; cell_h := 315 |}
  /\ solve_layout_float 5 1200 630 = solve_layout 5 1200 630.
Proof. split; vm_compute; reflexivity. Qed.




(** ** Placement loop *)

Lemma index_row_below_rows (n c idx : Z) :
  0 < c -> 0 <= idx < n -> idx / c < ceil_div n c.
Proof.
  intros Hc Hidx. pose proof (ceil_div_spec n c Hc) as [_ Hhi].
  apply Z.div_lt_upper_bound; [assumption|]. nia.
Qed.

(** While every index that is still to come lies in a row of the grid, the
    capacity check never fires. *)
Lemma place_loop_no_break (L : Layout) (imgs : list Image) :
  0 < cols L ->
  forall idx collage,
    0 <= idx ->
    (forall j, idx <= j < idx + Z.of_nat (List.length imgs) ->
               j / cols L < rows L) ->
    place_loop L idx imgs collage = place_all L idx imgs collage.
Proof.
  intros Hc. induction imgs as [|im rest IH]; intros idx collage Hidx Hrow.
  - reflexivity.
  - cbn [place_loop place_all].
    assert (Hr : idx / cols L < rows L).
    { apply Hrow. cbn [List.length]. lia. }
    replace (rows L <=? idx / cols L) with false
      by (symmetry; apply Z.leb_gt; exact Hr).
    destruct (place_one L idx im collage) as [collage1 | e | code];
      cbn [outcome_bind]; try reflexivity.
    apply IH; [lia|].
    intros j Hj. apply Hrow. cbn [List.length]. lia.
Qed.

Lemma place_one_pastes (L : Layout) (idx : Z) (im : Image)
      (collage collage' : Canvas) :
  place_one L idx im collage = Ok collage' ->
  exists p, pasted_at L idx im p /\
            canvas_pastes collage' = (canvas_pastes collage ++ [p])%list.
Proof.
  unfold place_one.
  destruct (fit im (cell_w L) (cell_h L)) as [[new_w new_h] | e | code] eqn:Hfit;
    cbn [outcome_bind]; try discriminate.
  intros [= <-].
  eexists. split; [|reflexivity].
  unfold pasted_at. cbn [paste_im paste_new_w paste_new_h paste_x paste_y].
  repeat split. exact Hfit.
Qed.

Lemma place_all_pastes (L : Layout) (imgs : list Image) :
  forall idx collage collage',
    place_all L idx imgs collage = Ok collage' ->
    exists ps, canvas_pastes collage' = (canvas_pastes collage ++ ps)%list /\
               row_major L idx imgs ps.
Proof.
  induction imgs as [|im rest IH]; intros idx collage collage' H.
  - injection H as <-. exists []. split; [now rewrite app_nil_r | exact I].
  - cbn [place_all] in H.
    destruct (place_one L idx im collage) as [c1 | e | code] eqn:H1;
      cbn [outcome_bind] in H; try discriminate.
    destruct (place_one_pastes _ _ _ _ _ H1) as (p & Hp & Hc1).
    destruct (IH _ _ _ H) as (ps & Hps & Hrm).
    exists (p :: ps). split.
    + rewrite Hps, Hc1, <- app_assoc. reflexivity.
    + split; assumption.
Qed.

Lemma place_all_total (L : Layout) (imgs : list Image) :
  (forall im, In im imgs -> exists s, fit im (cell_w L) (cell_h L) = Ok s) ->
  forall idx collage, exists collage', place_all L idx imgs collage = Ok collage'.
Proof.
  induction imgs as [|im rest IH]; intros Hfit idx collage.
  - eexists. reflexivity.
  - cbn [place_all]. unfold place_one.
    destruct (Hfit im (or_introl eq_refl)) as ([new_w new_h] & ->).
    cbn [outcome_bind].
    apply IH. intros im' Him'. apply Hfit. right. exact Him'.
Qed.



(** Two images on the canvas of [main]: three columns, one row, both images
    letterboxed in the first two cells. *)
Example draw_two_images :
  draw_collage [Toy.photo; Toy.banner] 1200 630
  = Ok ({| cols := 3; rows := 1; cell_w := 400; cell_h := 630 |},
        {| canvas_w := 1200; canvas_h := 630; canvas_color := (0, 0, 0);
           canvas_pastes :=
             [ {| paste_im := Toy.photo; paste_new_w := 400;
                  paste_new_h := 300; paste_x := 0; paste_y := 165 |};
               {| paste_im := Toy.banner; paste_new_w := 400;
                  paste_new_h := 225; paste_x := 400; paste_y := 202 |} ] |}).
Proof. vm_compute. reflexivity. Qed.

(** The loop body divides by [cell_h]: a grid with more rows than the canvas
    has pixel rows stops at the first image with [ZeroDivisionError]. *)
Example draw_on_tiny_canvas :
  draw_collage (repeat Toy.photo 13) 1 1 = Raise ZeroDivisionError.
Proof. vm_compute. reflexivity. Qed.


(** ** Collage builder *)

Lemma exits_bind {A B} (o : outcome A) (k : A -> outcome B) :
  exits o = false -> (forall a, exits (k a) = false) ->
  exits (outcome_bind o k) = false.
Proof. destruct o; cbn; auto. Qed.

Lemma exits_true_div (a b : Z) : exits (Float64.true_div a b) = false.
Proof. unfold Float64.true_div. destruct (b =? 0); reflexivity. Qed.

Lemma exits_to_int (x : spec_float) : exits (Float64.to_int x) = false.
Proof. destruct x; reflexivity. Qed.

Lemma exits_fit (im : Image) (cw ch : Z) : exits (fit im cw ch) = false.
Proof.
  unfold fit.
  apply exits_bind; [apply exits_true_div | intros im_ratio].
  apply exits_bind; [apply exits_true_div | intros cell_ratio].
  destruct (SFltb cell_ratio im_ratio).
  - destruct (Float64.is_zero im_ratio); [reflexivity|].
    apply exits_bind; [apply exits_to_int | reflexivity].
  - apply exits_bind; [apply exits_to_int | reflexivity].
Qed.

Lemma exits_place_loop (L : Layout) (imgs : list Image) :
  forall idx collage, exits (place_loop L idx imgs collage) = false.
Proof.
  induction imgs as [|im rest IH]; intros idx collage; [reflexivity|].
  cbn [place_loop]. destruct (rows L <=? idx / cols L); [reflexivity|].
  apply exits_bind; [|intros; apply IH].
  unfold place_one. apply exits_bind; [apply exits_fit|].
  intros [new_w new_h]. reflexivity.
Qed.

Lemma exits_solve_layout (n bw bh : Z) : exits (solve_layout n bw bh) = false.
Proof.
  unfold solve_layout. apply exits_bind.
  - unfold ceil_sqrt_quot.
    destruct (bh =? 0); [reflexivity|]. now destruct (_ || _).
  - intros k. now destruct (_ =? 0).
Qed.

Lemma exits_draw_collage (imgs : list Image) (bw bh : Z) :
  exits (draw_collage imgs bw bh) = false.
Proof.
  unfold draw_collage.
  apply exits_bind; [apply exits_solve_layout | intros L].
  apply exits_bind; [apply exits_place_loop | reflexivity].
Qed.

Lemma lookup_file_head (fs : list (string * FileContent)) (path : string)
      (c : FileContent) :
  lookup_file ((path, c) :: fs) path = Some c.
Proof. cbn. now rewrite String.eqb_refl. Qed.

Section CollageFacts.
Context {pillow : Pillow} {ospath : OsPath}.

(** What [compose] does when the drawing succeeds. *)
Lemma compose_drawn (imgs : list Image) (root : string) (bw bh : Z)
      (ts : string) (w : World) (L : Layout) (collage : Canvas) :
  draw_collage imgs bw bh = Ok (L, collage) ->
  compose imgs root bw bh ts w
  = (Ok (Some (real_data_uri_of collage), Some (cover_path_of root ts)),
     logged (Print (MsgCoverSaved (cover_path_of root ts)))
       (written (cover_path_of root ts) (cover_of collage)
          (logged (Print MsgRealEncoded)
             (logged (Print (MsgBuilding (Z.of_nat (List.length imgs))
                               (cols L) (rows L) (cell_w L) (cell_h L) bw bh))
                w)))).
Proof.
  unfold draw_collage, compose. intros H.
  destruct (solve_layout _ bw bh) as [L0 | e | code]; cbn in H; try discriminate.
  destruct (place_loop L0 0 imgs _) as [c0 | e | code] eqn:Hp;
    cbn in H; try discriminate.
  injection H as -> ->.
  unfold bind, lift, print, record, write_file, ret. cbn. rewrite Hp.
  reflexivity.
Qed.

(** And when it does not: the exception goes through, and no file is
    written. *)
Lemma compose_raised (imgs : list Image) (root : string) (bw bh : Z)
      (ts : string) (w : World) (e : exn) :
  draw_collage imgs bw bh = Raise e ->
  fst (compose imgs root bw bh ts w) = Raise e /\
  files (snd (compose imgs root bw bh ts w)) = files w.
Proof.
  unfold draw_collage, compose. intros H.
  destruct (solve_layout _ bw bh) as [L0 | e0 | code]; cbn in H; try discriminate.
  - destruct (place_loop L0 0 imgs _) as [c0 | e0 | code] eqn:Hp;
      cbn in H; try discriminate.
    injection H as ->.
    unfold bind, lift, print, record, write_file, ret. cbn. rewrite Hp.
    split; reflexivity.
  - injection H as ->. split; reflexivity.
Qed.

(** The three early returns: collage disabled, no source, no image. *)
Lemma build_collages_early_return
      (tiles : list VideoTile) (root : string) (max_cells bw bh : Z)
      (ts : string) (w : World) :
  max_cells <= 0
  \/ collect_thumb_srcs tiles max_cells [] = []
  \/ load_images w (collect_thumb_srcs tiles max_cells []) root = [] ->
  exists m,
    (m = MsgCollageDisabled \/ m = MsgNoThumbnails \/ m = MsgFailedToLoad) /\
    build_collages_for_33T tiles root max_cells bw bh ts w
    = (Ok (None, None), logged (Print m) w).
Proof.
  intros Hcase. unfold build_collages_for_33T.
  destruct (max_cells <=? 0) eqn:Hmax.
  - exists MsgCollageDisabled. split; [auto | reflexivity].
  - apply Z.leb_gt in Hmax. unfold collage_from_srcs.
    destruct (collect_thumb_srcs tiles max_cells []) as [|src srcs].
    + exists MsgNoThumbnails. split; [auto | reflexivity].
    + destruct Hcase as [Hc | [Hc | Hc]]; [lia | discriminate Hc |].
      rewrite Hc. exists MsgFailedToLoad. split; [auto | reflexivity].
Qed.

(** Past them the builder is [compose] on the loaded images. *)
Lemma build_collages_late
      (tiles : list VideoTile) (root : string) (max_cells bw bh : Z)
      (ts : string) (w : World) :
  ~ (max_cells <= 0
     \/ collect_thumb_srcs tiles max_cells [] = []
     \/ load_images w (collect_thumb_srcs tiles max_cells []) root = []) ->
  build_collages_for_33T tiles root max_cells bw bh ts w
  = compose (load_images w (collect_thumb_srcs tiles max_cells []) root)
            root bw bh ts w.
Proof.
  intros Hcase. unfold build_collages_for_33T.
  destruct (max_cells <=? 0) eqn:Hmax; [apply Z.leb_le in Hmax; tauto|].
  unfold collage_from_srcs.
  destruct (collect_thumb_srcs tiles max_cells []) as [|src rest]; [tauto|].
  destruct (load_images w (src :: rest) root) as [|im rest']; [tauto|].
  reflexivity.
Qed.

(** C6: when no thumbnail loads (none is available, or none of the available
    ones is readable) the builder leaves by one of its early returns: it
    prints one line, returns no data URI and no cover path, writes no file
    and raises nothing. *)
Theorem empty_thumbnail_set_skips_compositing
        (tiles : list VideoTile) (root : string) (max_cells bw bh : Z)
        (ts : string) (w : World) :
  load_images w (collect_thumb_srcs tiles max_cells []) root = [] ->
  exists m,
    (m = MsgCollageDisabled \/ m = MsgNoThumbnails \/ m = MsgFailedToLoad) /\
    build_collages_for_33T tiles root max_cells bw bh ts w
    = (Ok (None, None), logged (Print m) w) /\
    files (logged (Print m) w) = files w /\
    log (logged (Print m) w) = Print m :: log w.
Proof.
  intros Hload.
  destruct (build_collages_early_return tiles root max_cells bw bh ts w)
    as (m & Hm & Hrun); [auto|].
  exists m. repeat split; assumption.
Qed.

(** Step 5 of [main] then has nothing to publish, and goes on. *)
Lemma main_build_collages_empty (tiles : list VideoTile) (og_max : Z)
      (ts : string) (w : World) :
  load_images w (collect_thumb_srcs tiles og_max []) "." = [] ->
  exists w', main_build_collages tiles og_max ts w = (Ok (None, None, None), w')
             /\ files w' = files w.
Proof.
  intros Hload. unfold main_build_collages.
  destruct (ENABLE_PUBLIC_OG_COLLAGE && (0 <? og_max)).
  - destruct (build_collages_early_return tiles "." og_max 1200 630 ts w)
      as (m & _ & Hrun); [auto|].
    unfold bind. rewrite Hrun. eexists. split; reflexivity.
  - eexists. split; reflexivity.
Qed.

(** A source that does not load leaves no trace in the list of images. *)
Lemma load_images_skips (w : World) (root bad : string)
      (before after : list string) :
  download_image_to_pil w bad root = None ->
  load_images w (before ++ bad :: after) root
  = load_images w (before ++ after) root.
Proof.
  intros Hbad. induction before as [|src before IH].
  - cbn [app load_images]. now rewrite Hbad.
  - cbn [app load_images]. rewrite IH. reflexivity.
Qed.

(** C7, amended: an unreadable or missing thumbnail is skipped without an
    exception, and it is skipped before the layout is computed: when another
    thumbnail loads, the whole run (the images drawn, the data URI, the cover,
    the printed lines, the outcome) is the run on the same sources without
    the bad one.  No cell is kept for it. *)
Theorem unreadable_thumbnail_is_dropped
        (w : World) (before after : list string) (bad root : string)
        (bw bh : Z) (ts : string) :
  download_image_to_pil w bad root = None ->
  load_images w (before ++ after) root <> [] ->
  load_images w (before ++ bad :: after) root
  = load_images w (before ++ after) root
  /\ collage_from_srcs (before ++ bad :: after) root bw bh ts w
     = collage_from_srcs (before ++ after) root bw bh ts w.
Proof.
  intros Hbad Hsome.
  pose proof (load_images_skips w root bad before after Hbad) as Heq.
  split; [exact Heq|].
  unfold collage_from_srcs.
  destruct (before ++ bad :: after)%list as [|s1 l1] eqn:E1;
    [destruct before; discriminate E1|].
  destruct (before ++ after)%list as [|s2 l2] eqn:E2;
    [exfalso; apply Hsome; reflexivity|].
  cbv beta. rewrite Heq. reflexivity.
Qed.


(** C9: the builder's two results come together.  On the three early
    returns both are [None]; past them a drawing that succeeds gives both
    the data URI and the cover path, with the cover saved at that path, and
    one that raises saves no cover; the run never ends in [sys.exit]; and no
    run returns one of the two without the other. *)
Theorem collage_outputs_are_coupled
        (tiles : list VideoTile) (root : string) (max_cells bw bh : Z)
        (ts : string) (w : World) :
  let srcs := collect_thumb_srcs tiles max_cells [] in
  let imgs := load_images w srcs root in
  let run := build_collages_for_33T tiles root max_cells bw bh ts w in
  let early := max_cells <= 0 \/ srcs = [] \/ imgs = [] in
  (early -> fst run = Ok (None, None) /\ files (snd run) = files w)
  /\ (~ early ->
      forall L collage,
        draw_collage imgs bw bh = Ok (L, collage) ->
        fst run = Ok (Some (real_data_uri_of collage),
                      Some (cover_path_of root ts))
        /\ lookup_file (files (snd run)) (cover_path_of root ts)
           = Some (cover_of collage))
  /\ (~ early ->
      forall e,
        draw_collage imgs bw bh = Raise e ->
        fst run = Raise e /\ files (snd run) = files w)
  /\ exits (fst run) = false
  /\ (forall u p,
        fst run = Ok (u, p) ->
        (u = None /\ p = None)
        \/ (exists uri path, u = Some uri /\ p = Some path)).
Proof.
  cbv zeta.
  pose proof (build_collages_early_return tiles root max_cells bw bh ts w)
    as Hearly.
  pose proof (build_collages_late tiles root max_cells bw bh ts w) as Hlate.
  set (srcs := collect_thumb_srcs tiles max_cells []) in *.
  set (imgs := load_images w srcs root) in *.
  assert (Hcases : (max_cells <= 0 \/ srcs = [] \/ imgs = [])
                   \/ ~ (max_cells <= 0 \/ srcs = [] \/ imgs = [])).
  { destruct (Z_le_gt_dec max_cells 0); [tauto|].
    destruct srcs; [tauto|]. destruct imgs; [tauto|].
    right. intros [H | [H | H]]; [lia | discriminate | discriminate]. }
  pose proof (exits_draw_collage imgs bw bh) as Hex.
  split; [|split; [|split; [|split]]].
  - intros Hc. destruct (Hearly Hc) as (m & _ & ->). split; reflexivity.
  - intros Hc L collage Hd. rewrite (Hlate Hc).
    rewrite (compose_drawn imgs root bw bh ts w L collage Hd).
    cbn [fst snd logged written files]. rewrite lookup_file_head.
    split; reflexivity.
  - intros Hc e Hd. rewrite (Hlate Hc). now apply compose_raised.
  - destruct Hcases as [Hc | Hc].
    + destruct (Hearly Hc) as (m & _ & ->). reflexivity.
    + rewrite (Hlate Hc).
      destruct (draw_collage imgs bw bh) as [[L collage] | e | code] eqn:Hd;
        [| |discriminate Hex].
      * now rewrite (compose_drawn imgs root bw bh ts w L collage Hd).
      * now rewrite (proj1 (compose_raised imgs root bw bh ts w e Hd)).
  - intros u p Hrun. destruct Hcases as [Hc | Hc].
    + destruct (Hearly Hc) as (m & _ & Hm). rewrite Hm in Hrun.
      injection Hrun as <- <-. left. split; reflexivity.
    + rewrite (Hlate Hc) in Hrun.
      destruct (draw_collage imgs bw bh) as [[L collage] | e | code] eqn:Hd;
        [| |discriminate Hex].
      * rewrite (compose_drawn imgs root bw bh ts w L collage Hd) in Hrun.
        injection Hrun as <- <-. right. eauto.
      * rewrite (proj1 (compose_raised imgs root bw bh ts w e Hd)) in Hrun.
        discriminate Hrun.
Qed.

End CollageFacts.

Lemma empty_thumbnail_set_skips_compositing_witness :
  exists m,
    (m = MsgCollageDisabled \/ m = MsgNoThumbnails \/ m = MsgFailedToLoad) /\
    build_collages_for_33T (pillow := Toy.pillow) (ospath := Toy.ospath)
      [Toy.tile None; Toy.tile (Some "missing.png")] "." 63 1200 630
      "20260101_120000" Toy.world
    = (Ok (None, None), logged (Print m) Toy.world) /\
    files (logged (Print m) Toy.world) = files Toy.world /\
    log (logged (Print m) Toy.world) = Print m :: log Toy.world.
Proof.
  apply (empty_thumbnail_set_skips_compositing
           (pillow := Toy.pillow) (ospath := Toy.ospath)).
  reflexivity.
Defined.

(** C7, as stated, fails: the cell of an unreadable thumbnail is not left in
    the background colour.  The first of two sources is missing; the image of
    the second is pasted in cell 0, the first cell of the grid. *)
Lemma skipped_thumbnail_cell_is_reused :
  nth_error ["missing.png"; "thumbs/shot_001.png"] 0 = Some "missing.png" /\
  download_image_to_pil (pillow := Toy.pillow) (ospath := Toy.ospath)
    Toy.world "missing.png" "." = None /\
  exists L collage,
    draw_collage
      (load_images (pillow := Toy.pillow) (ospath := Toy.ospath) Toy.world
         ["missing.png"; "thumbs/shot_001.png"] ".") 1200 630
    = Ok (L, collage) /\
    ~ cell_is_background L collage 0.
Proof.
  split; [reflexivity|]. split; [reflexivity|].
  eexists. eexists. split; [vm_compute; reflexivity|].
  intros Hbg. eapply Hbg; [left; reflexivity|]. reflexivity.
Qed.

Lemma unreadable_thumbnail_is_dropped_witness :
  load_images (pillow := Toy.pillow) (ospath := Toy.ospath) Toy.world
    ([] ++ "missing.png" :: ["thumbs/shot_001.png"]) "."
  = load_images (pillow := Toy.pillow) (ospath := Toy.ospath) Toy.world
      ([] ++ ["thumbs/shot_001.png"]) "."
  /\ collage_from_srcs (pillow := Toy.pillow) (ospath := Toy.ospath)
       ([] ++ "missing.png" :: ["thumbs/shot_001.png"]) "." 1200 630
       "20260101_120000" Toy.world
     = collage_from_srcs (pillow := Toy.pillow) (ospath := Toy.ospath)
         ([] ++ ["thumbs/shot_001.png"]) "." 1200 630
         "20260101_120000" Toy.world.
Proof.
  apply (unreadable_thumbnail_is_dropped
           (pillow := Toy.pillow) (ospath := Toy.ospath)
           Toy.world [] ["thumbs/shot_001.png"] "missing.png" ".").
  - reflexivity.
  - discriminate.
Defined.

(** ** Envelope *)

Lemma length_entropy_bytes (w : World) (offset n : nat) :
  List.length (entropy_bytes w offset n) = n.
Proof. unfold entropy_bytes. now rewrite length_map, length_seq. Qed.

Section EnvelopeFacts.
Context {crypto : Crypto}.

(** One run of [encrypt_html_aes_gcm]: sixteen bytes of salt and twelve of
    nonce are drawn, the key is derived, the page is sealed, and the four
    results are returned in Base64. *)
Lemma encrypt_html_aes_gcm_run (html password : string) (iterations : Z)
      (w : World) :
  let salt := entropy_bytes w 0 16 in
  let iv := entropy_bytes w 16 12 in
  let key :=
    PBKDF2HMAC_SHA256 32 salt iterations (list_byte_of_string password) in
  let ciphertext := AESGCM_encrypt key iv (list_byte_of_string html) in
  encrypt_html_aes_gcm html password iterations w
  = (Ok (Base64.b64encode salt, Base64.b64encode iv,
         Base64.b64encode ciphertext, iterations),
     {| files := files w; http_get := http_get w; entropy := entropy w;
        drawn := (drawn w + 16 + 12)%nat; tty := tty w;
        log := AesGcmEncrypt iv (list_byte_of_string html)
               :: Pbkdf2Derive (list_byte_of_string password) salt iterations
               :: Urandom 12 :: Urandom 16 :: log w |}).
Proof.
  cbv zeta. unfold entropy_bytes. rewrite Nat.add_0_r. reflexivity.
Qed.

(** C5: when the passphrase typed at the prompt is empty, step 8 of [main]
    ends in [sys.exit(1)] having only prompted, read the line and printed the
    refusal: no random byte is drawn, no key is derived, nothing is sealed and
    HTML B is not written. *)
Theorem empty_passphrase_is_rejected
        (html html_b_path : string) (og_image_rel : option string)
        (obfuscate : bool) (w : World) (rest : list string) :
  tty w = "" :: rest ->
  exists w',
    main_write_b html html_b_path og_image_rel true obfuscate w = (Exit 1, w') /\
    log w' = Print MsgEmptyPassword :: GetPass :: Print MsgAesPrompt :: log w /\
    existsb is_crypto_event (log w') = existsb is_crypto_event (log w) /\
    drawn w' = drawn w /\
    files w' = files w.
Proof.
  intros Htty.
  unfold main_write_b, bind, print, record, getpass. cbn. rewrite Htty. cbn.
  eexists. split; [reflexivity|]. cbn. repeat split.
Qed.

(** One run of [make_aes_protected_wrapper]. *)
Lemma make_aes_protected_wrapper_run (html password : string)
      (og_image_rel : option string) (w : World) :
  exists page w',
    make_aes_protected_wrapper html password og_image_rel w = (Ok page, w') /\
    encrypt_html_aes_gcm html password 100000 w
    = (Ok (SALT_B64 page, IV_B64 page, CT_B64 page, PBKDF2_ITERATIONS page), w').
Proof.
  unfold make_aes_protected_wrapper, bind.
  rewrite encrypt_html_aes_gcm_run. cbn [ret].
  eexists. eexists. split; reflexivity.
Qed.

(** With a passphrase that is not empty the same step draws the salt and the
    nonce, derives, seals and writes the protected page. *)
Lemma nonempty_passphrase_seals
      (html html_b_path pw : string) (og_image_rel : option string)
      (obfuscate : bool) (w : World) (rest : list string) :
  tty w = pw :: rest -> pw <> "" ->
  exists w' page,
    main_write_b html html_b_path og_image_rel true obfuscate w = (Ok tt, w') /\
    lookup_file (files w') html_b_path = Some (ProtectedHtml page) /\
    existsb is_crypto_event (log w') = true /\
    PBKDF2_ITERATIONS page = 100000.
Proof.
  intros Htty Hpw. apply String.eqb_neq in Hpw.
  unfold main_write_b, bind, print, record, getpass.
  cbn -[make_aes_protected_wrapper]. rewrite Htty.
  cbn -[make_aes_protected_wrapper]. rewrite Hpw.
  destruct (make_aes_protected_wrapper_run
              html pw og_image_rel
              {| files := files w; http_get := http_get w;
                 entropy := entropy w; drawn := drawn w; tty := rest;
                 log := GetPass :: Print MsgAesPrompt :: log w |})
    as (page & w1 & Hwrap & Henc).
  rewrite Hwrap.
  rewrite encrypt_html_aes_gcm_run in Henc. injection Henc as _ _ _ Hit Hw1.
  eexists. exists page. split; [reflexivity|].
  cbn [write_file snd files log]. rewrite lookup_file_head.
  split; [reflexivity|]. split; [|symmetry; exact Hit].
  rewrite <- Hw1. reflexivity.
Qed.

Context {laws : CryptoLaws crypto}.


(** The page [make_aes_protected_wrapper] returns unlocks with the
    passphrase it was made with. *)
Lemma protected_page_unlocks (html password : string)
      (og_image_rel : option string) (w : World) :
  exists page w',
    make_aes_protected_wrapper html password og_image_rel w = (Ok page, w') /\
    unlockWithPassword page password = Unlocked html.
Proof.
  unfold make_aes_protected_wrapper, bind.
  rewrite encrypt_html_aes_gcm_run. cbn [ret].
  eexists. eexists. split; [reflexivity|].
  unfold unlockWithPassword, unlock_plaintext.
  cbn [SALT_B64 IV_B64 CT_B64 PBKDF2_ITERATIONS].
  rewrite !Base64Facts.base64ToArrayBuffer_b64encode.
  rewrite open_seal.
  - now rewrite string_of_list_byte_of_string.
  - rewrite derive_length by lia. reflexivity.
  - apply length_entropy_bytes.
Qed.

End EnvelopeFacts.

(** ** The small cipher meets the laws *)

Module ToyFacts.
Import Base64 Base64Facts.

Lemma to_N_byte_of_N (n : N) : Byte.to_N (byte_of_N n) = (n mod 256)%N.
Proof.
  unfold byte_of_N.
  destruct (Byte.of_N (n mod 256)) as [b|] eqn:E.
  - now apply Byte.to_of_N.
  - apply Byte.of_N_None_iff in E.
    pose proof (N.mod_upper_bound n 256 ltac:(lia)). lia.
Qed.

Lemma byte_of_N_mod (n : N) (b : byte) :
  (n mod 256 = Byte.to_N b)%N -> byte_of_N n = b.
Proof.
  intros H. apply byte_of_N_eq in H. rewrite <- H.
  unfold byte_of_N. now rewrite N.Div0.mod_mod.
Qed.

Lemma unshift_shift (k : N) (b : byte) :
  Toy.unshift_byte k (Toy.shift_byte k b) = b.
Proof.
  unfold Toy.unshift_byte, Toy.shift_byte.
  apply byte_of_N_mod. rewrite to_N_byte_of_N.
  pose proof (to_N_lt b).
  pose proof (N.mod_upper_bound k 256 ltac:(lia)).
  zify. Z.to_euclidean_division_equations. lia.
Qed.

Lemma bytes_eqb_refl (a : bytes) : Toy.bytes_eqb a a = true.
Proof.
  induction a as [|x a IH]; [reflexivity|].
  cbn. now rewrite (Byte.byte_dec_lb (x := x) (y := x) eq_refl).
Qed.

Lemma length_tag (key nonce : bytes) : List.length (Toy.tag key nonce) = 16%nat.
Proof. apply repeat_length. Qed.

Lemma open_seal (key nonce data : bytes) :
  Toy.open key nonce (Toy.seal key nonce data) = Some data.
Proof.
  unfold Toy.open, Toy.seal.
  set (m := map (Toy.shift_byte (Toy.digest key)) data).
  assert (Hm : List.length m = List.length data) by apply length_map.
  rewrite length_app, length_tag.
  replace (List.length m + 16 <? 16)%nat with false
    by (symmetry; apply Nat.ltb_ge; lia).
  replace (List.length m + 16 - 16)%nat with (List.length m) by lia.
  rewrite skipn_app, skipn_all, Nat.sub_diag, firstn_app, firstn_all,
    Nat.sub_diag.
  cbn [skipn firstn app]. rewrite app_nil_r, bytes_eqb_refl.
  unfold m. rewrite map_map.
  f_equal. rewrite <- (map_id data) at 2.
  apply map_ext. intros b. apply unshift_shift.
Qed.

#[export] Instance laws : CryptoLaws Toy.crypto.
Proof.
  split.
  - intros len salt iterations password _. cbn. unfold Toy.kdf.
    now rewrite length_map, length_seq.
  - intros key nonce data _ _. apply open_seal.
Qed.

End ToyFacts.


Lemma empty_passphrase_is_rejected_witness :
  exists w',
    main_write_b (crypto := Toy.crypto) "<html>grid</html>"
      "grid_20260101_120000_B.html" None true false (Toy.typing [""])
    = (Exit 1, w') /\
    log w' = Print MsgEmptyPassword :: GetPass :: Print MsgAesPrompt
             :: log (Toy.typing [""]) /\
    existsb is_crypto_event (log w')
    = existsb is_crypto_event (log (Toy.typing [""])) /\
    drawn w' = drawn (Toy.typing [""]) /\
    files w' = files (Toy.typing [""]).
Proof.
  apply (empty_passphrase_is_rejected
           (crypto := Toy.crypto) "<html>grid</html>"
           "grid_20260101_120000_B.html" None false (Toy.typing [""]) []).
  reflexivity.
Defined.

(** The sealed page of the small cipher opens with the passphrase and stays
    locked with another one. *)
Example toy_page_unlocks :
  let run := make_aes_protected_wrapper (crypto := Toy.crypto)
               "<html>grid</html>" "correct-horse" None Toy.world in
  match fst run with
  | Ok page =>
      unlockWithPassword (crypto := Toy.crypto) page "correct-horse"
      = Unlocked "<html>grid</html>"
      /\ unlockWithPassword (crypto := Toy.crypto) page "wrong-horse"
         = DecryptionFailed
  | _ => False
  end.
Proof. vm_compute. split; reflexivity. Qed.

(** ** Thumbnail selection and the size of the collage *)

Lemma In_firstn {A} (n : nat) (l : list A) (x : A) :
  In x (firstn n l) -> In x l.
Proof.
  intros H. rewrite <- (firstn_skipn n l). apply in_or_app. now left.
Qed.

Lemma thumb_sources_cons (t : VideoTile) (tiles : list VideoTile) :
  thumb_sources (t :: tiles)
  = (match truthy (thumb_src_collage t) with
     | Some src => [src]
     | None => []
     end ++ thumb_sources tiles)%list.
Proof. reflexivity. Qed.

Section SelectionFacts.
Context {pillow : Pillow} {ospath : OsPath}.

Lemma collect_thumb_srcs_acc (max_cells : Z) (tiles : list VideoTile) :
  forall acc,
    Z.of_nat (List.length acc) < max_cells ->
    collect_thumb_srcs tiles max_cells acc
    = (acc ++ firstn (Z.to_nat max_cells - List.length acc)
                     (thumb_sources tiles))%list.
Proof.
  induction tiles as [|t tiles IH]; intros acc Hacc.
  - cbn. now rewrite firstn_nil, app_nil_r.
  - rewrite thumb_sources_cons. cbn [collect_thumb_srcs].
    destruct (truthy (thumb_src_collage t)) as [src|].
    + destruct (max_cells <=? Z.of_nat (List.length (acc ++ [src]))) eqn:Hfull.
      * apply Z.leb_le in Hfull. rewrite length_app in Hfull. cbn in Hfull.
        replace (Z.to_nat max_cells - List.length acc)%nat with 1%nat by lia.
        cbn [app firstn]. reflexivity.
      * apply Z.leb_gt in Hfull. rewrite IH by exact Hfull.
        rewrite length_app in *. cbn [List.length] in *.
        replace (Z.to_nat max_cells - List.length acc)%nat
          with (S (Z.to_nat max_cells - (List.length acc + 1)))%nat by lia.
        cbn [app firstn]. now rewrite <- app_assoc.
    + cbn [app]. now apply IH.
Qed.

Lemma collect_thumb_srcs_is_prefix_aux (tiles : list VideoTile) (max_cells : Z) :
  1 <= max_cells ->
  collect_thumb_srcs tiles max_cells []
  = firstn (Z.to_nat max_cells) (thumb_sources tiles).
Proof.
  intros Hmax. rewrite collect_thumb_srcs_acc by (cbn; lia).
  cbn [List.length app]. now rewrite Nat.sub_0_r.
Qed.

(** X1: the collage uses the first [max_cells] thumbnail sources: the
    sources of the tiles that have one, in tile order, cut after
    [max_cells] of them. *)
Theorem collect_thumb_srcs_is_prefix (tiles : list VideoTile) (max_cells : Z) :
  1 <= max_cells ->
  collect_thumb_srcs tiles max_cells []
  = firstn (Z.to_nat max_cells) (thumb_sources tiles)
  /\ Z.of_nat (List.length (collect_thumb_srcs tiles max_cells [])) <= max_cells
  /\ forall src, In src (collect_thumb_srcs tiles max_cells []) ->
                 src <> "" /\
                 exists t, In t tiles /\ thumb_src_collage t = Some src.
Proof.
  intros Hmax.
  pose proof (collect_thumb_srcs_is_prefix_aux tiles max_cells Hmax) as Heq.
  split; [exact Heq|]. split.
  - rewrite Heq, length_firstn. lia.
  - intros src Hin. rewrite Heq in Hin. apply In_firstn in Hin.
    unfold thumb_sources in Hin. apply in_flat_map in Hin.
    destruct Hin as (t & Ht & Hsrc).
    unfold truthy in Hsrc.
    destruct (thumb_src_collage t) as [s0|] eqn:Hs0; [|contradiction].
    destruct (String.eqb s0 "") eqn:He; [contradiction|].
    destruct Hsrc as [<- | []].
    split; [now apply String.eqb_neq|]. exists t. split; assumption.
Qed.

Lemma length_load_images (w : World) (root : string) (srcs : list string) :
  (List.length (load_images w srcs root) <= List.length srcs)%nat.
Proof.
  induction srcs as [|src srcs IH]; [reflexivity|].
  cbn [load_images]. destruct (download_image_to_pil w src root);
    cbn [List.length]; lia.
Qed.

End SelectionFacts.

(** What a layout that was computed looks like, whatever the canvas. *)
Lemma solve_layout_shape (n bw bh : Z) (L : Layout) :
  solve_layout n bw bh = Ok L ->
  3 <= cols L <= 12 /\ rows L = ceil_div n (cols L).
Proof.
  unfold solve_layout.
  destruct (ceil_sqrt_quot (n * bw) bh) as [k | e | c]; cbn [outcome_bind];
    try discriminate.
  destruct (ceil_div n (Z.max 3 (Z.min 12 k)) =? 0); [discriminate|].
  intros [= <-]. cbn [cols rows]. split; [lia | reflexivity].
Qed.

Lemma row_major_images (L : Layout) (imgs : list Image) :
  forall idx ps, row_major L idx imgs ps -> map paste_im ps = imgs.
Proof.
  induction imgs as [|im imgs IH]; intros idx [|p ps] H;
    cbn [row_major] in H; try contradiction; [reflexivity|].
  destruct H as ((Him & _) & Hrest).
  cbn [map]. rewrite Him. f_equal. eapply IH. exact Hrest.
Qed.

(** A drawing that succeeds has pasted every image once and in order. *)
Lemma draw_collage_pastes (imgs : list Image) (bw bh : Z) (L : Layout)
      (collage : Canvas) :
  draw_collage imgs bw bh = Ok (L, collage) ->
  map paste_im (canvas_pastes collage) = imgs.
Proof.
  unfold draw_collage. intros H.
  destruct (solve_layout _ bw bh) as [L0 | e | c] eqn:HL;
    cbn [outcome_bind] in H; try discriminate.
  destruct (place_loop L0 0 imgs _) as [c0 | e | c] eqn:Hp;
    cbn [outcome_bind] in H; try discriminate.
  injection H as -> ->.
  destruct (solve_layout_shape _ _ _ _ HL) as (Hc & Hr).
  rewrite place_loop_no_break in Hp; [|lia|lia|].
  - destruct (place_all_pastes _ _ _ _ _ Hp) as (ps & Hps & Hrm).
    cbn [Image_new canvas_pastes app] in Hps. rewrite Hps.
    eapply row_major_images. exact Hrm.
  - intros j Hj. rewrite Hr. apply index_row_below_rows; lia.
Qed.

Section SizeFacts.
Context {pillow : Pillow} {ospath : OsPath}.

(** X2: a collage never holds more than [max_cells] thumbnails: at most
    that many images are loaded, and a drawing that succeeds pastes exactly
    the loaded images, each once and in loading order. *)
Theorem collage_holds_at_most_max_cells
        (tiles : list VideoTile) (root : string) (max_cells : Z) (w : World) :
  1 <= max_cells ->
  let imgs := load_images w (collect_thumb_srcs tiles max_cells []) root in
  Z.of_nat (List.length imgs) <= max_cells
  /\ forall bw bh L collage,
       draw_collage imgs bw bh = Ok (L, collage) ->
       map paste_im (canvas_pastes collage) = imgs
       /\ Z.of_nat (List.length (canvas_pastes collage)) <= max_cells.
Proof.
  intros Hmax. cbv zeta.
  assert (Hlen : Z.of_nat (List.length
                   (load_images w (collect_thumb_srcs tiles max_cells []) root))
                 <= max_cells).
  { pose proof (length_load_images w root (collect_thumb_srcs tiles max_cells []))
      as Hl.
    assert (Hc : (List.length (collect_thumb_srcs tiles max_cells [])
                  <= Z.to_nat max_cells)%nat).
    { rewrite collect_thumb_srcs_is_prefix_aux by exact Hmax.
      rewrite length_firstn. lia. }
    lia. }
  split; [exact Hlen|].
  intros bw bh L collage Hd.
  pose proof (draw_collage_pastes _ _ _ _ _ Hd) as Hps.
  split; [exact Hps|].
  rewrite <- (length_map paste_im), Hps. exact Hlen.
Qed.

End SizeFacts.



Lemma collect_thumb_srcs_is_prefix_witness :
  collect_thumb_srcs
    [Toy.tile (Some "a.png"); Toy.tile None; Toy.tile (Some "");
     Toy.tile (Some "b.png"); Toy.tile (Some "c.png")] 2 []
  = firstn (Z.to_nat 2)
      (thumb_sources
         [Toy.tile (Some "a.png"); Toy.tile None; Toy.tile (Some "");
          Toy.tile (Some "b.png"); Toy.tile (Some "c.png")])
  /\ Z.of_nat (List.length
       (collect_thumb_srcs
          [Toy.tile (Some "a.png"); Toy.tile None; Toy.tile (Some "");
           Toy.tile (Some "b.png"); Toy.tile (Some "c.png")] 2 [])) <= 2
  /\ forall src,
       In src (collect_thumb_srcs
                 [Toy.tile (Some "a.png"); Toy.tile None; Toy.tile (Some "");
                  Toy.tile (Some "b.png"); Toy.tile (Some "c.png")] 2 []) ->
       src <> "" /\
       exists t,
         In t [Toy.tile (Some "a.png"); Toy.tile None; Toy.tile (Some "");
               Toy.tile (Some "b.png"); Toy.tile (Some "c.png")]
         /\ thumb_src_collage t = Some src.
Proof.
  apply (collect_thumb_srcs_is_prefix
           [Toy.tile (Some "a.png"); Toy.tile None; Toy.tile (Some "");
            Toy.tile (Some "b.png"); Toy.tile (Some "c.png")] 2).
  lia.
Defined.

Lemma collage_holds_at_most_max_cells_witness :
  let imgs :=
    load_images (pillow := Toy.pillow) (ospath := Toy.ospath) Toy.world
      (collect_thumb_srcs
         [Toy.tile (Some "thumbs/shot_001.png"); Toy.tile (Some "missing.png")]
         63 []) "." in
  Z.of_nat (List.length imgs) <= 63
  /\ forall bw bh L collage,
       draw_collage imgs bw bh = Ok (L, collage) ->
       map paste_im (canvas_pastes collage) = imgs
       /\ Z.of_nat (List.length (canvas_pastes collage)) <= 63.
Proof.
  apply (collage_holds_at_most_max_cells
           (pillow := Toy.pillow) (ospath := Toy.ospath)
           [Toy.tile (Some "thumbs/shot_001.png"); Toy.tile (Some "missing.png")]
           "." 63 Toy.world).
  lia.
Defined.

(** ** De-duplication of the URLs *)

Lemma mem_true_iff (u : string) (seen : list string) :
  mem u seen = true <-> In u seen.
Proof.
  induction seen as [|v seen IH]; cbn; [split; [discriminate | tauto]|].
  rewrite orb_true_iff, String.eqb_eq, IH. tauto.
Qed.

Lemma dedup_loop_acc (urls_raw : list string) :
  forall seen urls,
    dedup_loop urls_raw seen urls
    = (urls ++ dedup_loop urls_raw seen [])%list.
Proof.
  induction urls_raw as [|u rest IH]; intros seen urls; cbn [dedup_loop].
  - now rewrite app_nil_r.
  - destruct (mem u seen); [apply IH|].
    rewrite (IH (u :: seen) (urls ++ [u])%list), (IH (u :: seen) ([] ++ [u])%list).
    now rewrite <- app_assoc.
Qed.

Lemma dedup_loop_cons (u : string) (rest seen : list string) :
  dedup_loop (u :: rest) seen []
  = if mem u seen then dedup_loop rest seen []
    else u :: dedup_loop rest (u :: seen) [].
Proof.
  cbn [dedup_loop]. destruct (mem u seen); [reflexivity|].
  now rewrite dedup_loop_acc.
Qed.

Lemma dedup_loop_ext (urls_raw : list string) :
  forall seen seen',
    (forall v, mem v seen = mem v seen') ->
    dedup_loop urls_raw seen [] = dedup_loop urls_raw seen' [].
Proof.
  induction urls_raw as [|u rest IH]; intros seen seen' Hext; [reflexivity|].
  rewrite !dedup_loop_cons, <- Hext.
  destruct (mem u seen); [now apply IH|].
  f_equal. apply IH. intros v. cbn [mem]. now rewrite Hext.
Qed.

Lemma dedup_loop_In (urls_raw : list string) :
  forall seen v,
    In v (dedup_loop urls_raw seen []) <-> In v urls_raw /\ mem v seen = false.
Proof.
  induction urls_raw as [|u rest IH]; intros seen v.
  - cbn. tauto.
  - rewrite dedup_loop_cons. destruct (mem u seen) eqn:Hu.
    + rewrite IH. cbn [In]. split; [tauto|].
      intros [[<- | Hin] Hv]; [congruence | tauto].
    + cbn [In]. rewrite IH. cbn [mem].
      destruct (String.eqb_spec u v) as [<- | Hne]; cbn [orb].
      * split; [intros _; now split; [left|] | now left].
      * split; [tauto|]. intros [[H | H] Hv]; [contradiction | tauto].
Qed.

Lemma dedup_loop_NoDup (urls_raw : list string) :
  forall seen, NoDup (dedup_loop urls_raw seen []).
Proof.
  induction urls_raw as [|u rest IH]; intros seen; [constructor|].
  rewrite dedup_loop_cons. destruct (mem u seen); [apply IH|].
  constructor; [|apply IH].
  rewrite dedup_loop_In. cbn [mem]. rewrite String.eqb_refl. cbn.
  intros [_ H]. discriminate H.
Qed.

Lemma dedup_loop_seen (urls_raw : list string) :
  forall seen u,
    dedup_loop urls_raw (u :: seen) []
    = filter (fun v => negb (String.eqb v u)) (dedup_loop urls_raw seen []).
Proof.
  induction urls_raw as [|x rest IH]; intros seen u; [reflexivity|].
  rewrite !dedup_loop_cons. cbn [mem].
  destruct (String.eqb_spec u x) as [-> | Hne]; cbn [orb].
  - destruct (mem x seen) eqn:Hx; [apply IH|].
    cbn [filter]. rewrite String.eqb_refl. cbn [negb].
    rewrite <- IH. apply dedup_loop_ext.
    intros v. cbn [mem]. now destruct (String.eqb x v).
  - destruct (mem x seen) eqn:Hx; [apply IH|].
    cbn [filter].
    replace (String.eqb x u) with false
      by (symmetry; apply String.eqb_neq; congruence).
    cbn [negb]. f_equal. rewrite <- IH. apply dedup_loop_ext.
    intros v. cbn [mem].
    destruct (String.eqb x v), (String.eqb u v); reflexivity.
Qed.

(** X4: the de-duplication of step 2 of [main] keeps every URL once, at
    the place of its first occurrence: the result has no repetition, the same
    members as the input, starts with the first input URL and goes on with
    the de-duplicated rest minus that URL. *)
Theorem unique_urls_keeps_first_occurrences :
  (forall urls_raw, NoDup (unique_urls urls_raw))
  /\ (forall urls_raw u, In u (unique_urls urls_raw) <-> In u urls_raw)
  /\ unique_urls [] = []
  /\ (forall u rest,
        unique_urls (u :: rest)
        = u :: filter (fun v => negb (String.eqb v u)) (unique_urls rest)).
Proof.
  unfold unique_urls. split; [intros; apply dedup_loop_NoDup|].
  split; [|split].
  - intros urls_raw u. rewrite dedup_loop_In. cbn [mem]. tauto.
  - reflexivity.
  - intros u rest. rewrite dedup_loop_cons. cbn [mem].
    now rewrite dedup_loop_seen.
Qed.

(** ** YouTube ids and platforms *)

Lemma append_assoc (a b c : string) : (a ++ b) ++ c = a ++ (b ++ c).
Proof. induction a as [|x a IH]; cbn; [reflexivity | now rewrite IH]. Qed.

Lemma prefix_drop (pre s : string) :
  String.prefix pre s = true -> s = pre ++ drop (String.length pre) s.
Proof.
  revert s. induction pre as [|c pre IH]; intros s H; [reflexivity|].
  destruct s as [|d s]; cbn in H; [discriminate|].
  destruct (Ascii.ascii_dec c d) as [->|]; [|discriminate].
  cbn. f_equal. now apply IH.
Qed.

Lemma prefix_append (pre s : string) : String.prefix pre (pre ++ s) = true.
Proof.
  induction pre as [|c pre IH]; cbn; [now destruct s|].
  destruct (Ascii.ascii_dec c c); [exact IH | congruence].
Qed.

Lemma drop_append (pre s : string) : drop (String.length pre) (pre ++ s) = s.
Proof. induction pre as [|c pre IH]; cbn; [reflexivity | exact IH]. Qed.

Lemma take_while_spec (p : ascii -> bool) (s : string) :
  string_forall p (take_while p s) = true
  /\ exists post, s = take_while p s ++ post /\ starts_with p post = false.
Proof.
  induction s as [|c s (Hall & post & Hs & Hpost)]; cbn.
  - split; [reflexivity|]. exists "". split; reflexivity.
  - destruct (p c) eqn:Hc; cbn.
    + rewrite Hc, Hall. split; [reflexivity|].
      exists post. split; [now rewrite <- Hs | exact Hpost].
    + split; [reflexivity|]. exists (String c s). split; [reflexivity|].
      exact Hc.
Qed.

Lemma take_while_append (p : ascii -> bool) (vid post : string) :
  string_forall p vid = true ->
  (String.length vid <= String.length (take_while p (vid ++ post)))%nat.
Proof.
  induction vid as [|c vid IH]; cbn; [lia|].
  intros H. apply andb_prop in H as [Hc Hv]. rewrite Hc. cbn.
  specialize (IH Hv). lia.
Qed.

Lemma id_after_sound (pre s vid : string) :
  id_after pre s = Some vid ->
  (6 <= String.length vid)%nat
  /\ string_forall is_id_char vid = true
  /\ exists post, s = pre ++ vid ++ post /\ starts_with is_id_char post = false.
Proof.
  unfold id_after. destruct (String.prefix pre s) eqn:Hpre; [|discriminate].
  destruct (6 <=? _)%nat eqn:Hlen; [|discriminate].
  intros [= <-]. apply Nat.leb_le in Hlen.
  destruct (take_while_spec is_id_char (drop (String.length pre) s))
    as (Hall & post & Hs & Hpost).
  split; [exact Hlen|]. split; [exact Hall|].
  exists post. split; [|exact Hpost].
  rewrite <- Hs. now apply prefix_drop.
Qed.

Lemma id_after_complete (pre vid post : string) :
  (6 <= String.length vid)%nat ->
  string_forall is_id_char vid = true ->
  id_after pre (pre ++ vid ++ post) <> None.
Proof.
  intros Hlen Hall. unfold id_after.
  rewrite prefix_append, drop_append.
  pose proof (take_while_append is_id_char vid post Hall) as Hrun.
  replace (6 <=? _)%nat with true by (symmetry; apply Nat.leb_le; lia).
  discriminate.
Qed.

Lemma search_youtube_id_sound (s vid : string) :
  search_youtube_id s = Some vid ->
  exists before at_match,
    s = before ++ at_match /\ match_youtube_id at_match = Some vid.
Proof.
  induction s as [|c s IH]; cbn [search_youtube_id].
  - destruct (match_youtube_id "") eqn:Hm; [|discriminate].
    intros [= <-]. exists "", "". split; [reflexivity | exact Hm].
  - destruct (match_youtube_id (String c s)) eqn:Hm.
    + intros [= <-]. exists "", (String c s). split; [reflexivity | exact Hm].
    + intros H. destruct (IH H) as (before & at_match & -> & Hat).
      exists (String c before), at_match. split; [reflexivity | exact Hat].
Qed.

Lemma search_youtube_id_complete (before at_match : string) :
  match_youtube_id at_match <> None ->
  search_youtube_id (before ++ at_match) <> None.
Proof.
  intros Hat. induction before as [|c before IH]; cbn [append].
  - destruct at_match; cbn [search_youtube_id];
      destruct (match_youtube_id _); congruence.
  - cbn [search_youtube_id].
    destruct (match_youtube_id (String c (before ++ at_match)));
      [discriminate | exact IH].
Qed.

(** X5: the id [extract_youtube_id] takes out of a URL has at least six
    characters, all of them letters, digits, [_] or [-]; it stands in the
    URL right after [v=] or [youtu.be/] and is the whole run of such
    characters there.  An id is found whenever the URL has such a place, so
    the tests [if vid] on the result only ever see [None]. *)
Theorem extract_youtube_id_is_clean (url : string) :
  (forall vid,
      extract_youtube_id url = Some vid ->
      (6 <= String.length vid)%nat
      /\ string_forall is_id_char vid = true
      /\ exists before post,
           (url = before ++ "v=" ++ vid ++ post
            \/ url = before ++ "youtu.be/" ++ vid ++ post)
           /\ starts_with is_id_char post = false)
  /\ (forall before vid post,
        url = before ++ "v=" ++ vid ++ post
        \/ url = before ++ "youtu.be/" ++ vid ++ post ->
        (6 <= String.length vid)%nat ->
        string_forall is_id_char vid = true ->
        extract_youtube_id url <> None)
  /\ truthy (extract_youtube_id url) = extract_youtube_id url.
Proof.
  assert (Hsound : forall vid,
             extract_youtube_id url = Some vid ->
             (6 <= String.length vid)%nat
             /\ string_forall is_id_char vid = true
             /\ exists before post,
                  (url = before ++ "v=" ++ vid ++ post
                   \/ url = before ++ "youtu.be/" ++ vid ++ post)
                  /\ starts_with is_id_char post = false).
  { intros vid H. unfold extract_youtube_id in H.
    destruct (search_youtube_id_sound _ _ H) as (before & at_match & -> & Hat).
    unfold match_youtube_id in Hat.
    destruct (id_after "v=" at_match) as [v1|] eqn:H1.
    - injection Hat as ->.
      destruct (id_after_sound _ _ _ H1) as (Hlen & Hall & post & -> & Hpost).
      repeat split; try assumption. exists before, post. split; [now left|].
      exact Hpost.
    - destruct (id_after_sound _ _ _ Hat) as (Hlen & Hall & post & -> & Hpost).
      repeat split; try assumption. exists before, post. split; [now right|].
      exact Hpost. }
  split; [exact Hsound|]. split.
  - intros before vid post Hurl Hlen Hall. unfold extract_youtube_id.
    destruct Hurl as [-> | ->]; apply search_youtube_id_complete;
      unfold match_youtube_id.
    + pose proof (id_after_complete "v=" vid post Hlen Hall) as Hc.
      destruct (id_after "v=" ("v=" ++ vid ++ post)); [discriminate | congruence].
    + pose proof (id_after_complete "youtu.be/" vid post Hlen Hall) as Hc.
      destruct (id_after "v=" ("youtu.be/" ++ vid ++ post)); [discriminate|].
      exact Hc.
  - destruct (extract_youtube_id url) as [vid|] eqn:H; [|reflexivity].
    destruct (Hsound vid eq_refl) as (Hlen & _).
    cbn [truthy]. destruct vid; [cbn in Hlen; lia | reflexivity].
Qed.

(** X6: [detect_platform] only ever answers with a key of
    [PLATFORM_LABELS], so the label lookup of the fallback card never falls
    back on its default; and the platforms [main] takes screenshots for are
    four of those keys, none of which [detect_platform] gives to a URL that
    names YouTube. *)
Theorem detect_platform_is_a_known_platform (url : string) :
  (exists label, dict_get PLATFORM_LABELS (detect_platform url) = Some label)
  /\ In (detect_platform url)
        ["youtube"; "rumble"; "vimeo"; "tiktok"; "instagram"; "twitter";
         "facebook"; "other"]
  /\ (contains (lower url) "youtube.com" = true
      \/ contains (lower url) "youtu.be" = true ->
      detect_platform url = "youtube" /\ needs_screenshot url = false).
Proof.
  assert (Hin : In (detect_platform url)
                   ["youtube"; "rumble"; "vimeo"; "tiktok"; "instagram";
                    "twitter"; "facebook"; "other"]).
  { unfold detect_platform. cbv zeta.
    repeat match goal with
           | |- context [if ?b then _ else _] => destruct b
           end; cbn; tauto. }
  split; [|split; [exact Hin|]].
  - cbn [In] in Hin.
    repeat destruct Hin as [<- | Hin]; try contradiction;
      eexists; reflexivity.
  - intros Hy.
    assert (Hd : detect_platform url = "youtube").
    { unfold detect_platform. cbv zeta.
      destruct Hy as [-> | ->]; [reflexivity | now rewrite orb_true_r]. }
    split; [exact Hd|]. unfold needs_screenshot. cbv zeta. now rewrite Hd.
Qed.

(** ** Command line *)

Section CommandLineFacts.
Context {pyint : PyInt}.

(** No argument changes the input path or the engine, and none brings the
    size of the collage below one. *)
Lemma parse_arg_keeps (st : Args) (arg : string) :
  engine st = "selenium" -> 1 <= og_max st ->
  engine (parse_arg st arg) = "selenium"
  /\ 1 <= og_max (parse_arg st arg)
  /\ input_path (parse_arg st arg) = input_path st.
Proof.
  intros He Ho. unfold parse_arg. cbv zeta.
  repeat match goal with
         | |- context [if ?b then _ else _] => destruct b
         | |- context [match py_int ?x with _ => _ end] => destruct (py_int x)
         end; cbn [engine og_max input_path]; repeat split; auto; lia.
Qed.

Lemma fold_parse_arg_keeps (rest : list string) :
  forall st,
    engine st = "selenium" -> 1 <= og_max st ->
    engine (fold_left parse_arg rest st) = "selenium"
    /\ 1 <= og_max (fold_left parse_arg rest st)
    /\ input_path (fold_left parse_arg rest st) = input_path st.
Proof.
  induction rest as [|arg rest IH]; intros st He Ho; cbn [fold_left];
    [auto|].
  destruct (parse_arg_keeps st arg He Ho) as (He' & Ho' & Hp').
  destruct (IH _ He' Ho') as (He'' & Ho'' & Hp'').
  repeat split; try assumption. congruence.
Qed.

Lemma parse_args_returned (argv : list string) (usage : bool) (a : Args) :
  parse_args argv = (usage, Returned a) ->
  1 <= og_max a /\ engine a = "selenium"
  /\ nth_error argv 1 = Some (input_path a) /\ usage = false.
Proof.
  unfold parse_args. destruct argv as [|prog [|first rest]];
    try discriminate.
  cbv zeta. set (st0 := {| input_path := first |}).
  destruct (fold_parse_arg_keeps rest st0 eq_refl ltac:(cbn; lia))
    as (He & Ho & Hp).
  rewrite He.
  replace (negb (String.eqb "selenium" "selenium")) with false by reflexivity.
  intros [= <- <-]. cbn [nth_error]. rewrite Hp. repeat split; auto.
Qed.

(** X7: [parse_args] on fewer than two arguments prints the usage line and
    then raises [IndexError] at [argv[1]]; on two or more it returns, never
    leaves through its [sys.exit(1)] (the engine can only be [selenium]), takes
    the input path from [argv[1]], and whatever [ogmax=] arguments it meets,
    the collage size it returns is at least 1. *)
Theorem parse_args_outcomes (argv : list string) :
  ((List.length argv < 2)%nat -> parse_args argv = (true, RaisedIndexError))
  /\ ((2 <= List.length argv)%nat ->
      exists a,
        parse_args argv = (false, Returned a)
        /\ 1 <= og_max a
        /\ engine a = "selenium"
        /\ nth_error argv 1 = Some (input_path a)).
Proof.
  split; intros Hlen.
  - destruct argv as [|prog [|first rest]]; cbn in Hlen; try lia; reflexivity.
  - destruct argv as [|prog [|first rest]]; cbn in Hlen; try lia.
    destruct (parse_args (prog :: first :: rest)) as [usage [a | | code]] eqn:H.
    + destruct (parse_args_returned _ _ _ H) as (Ho & He & Hp & ->).
      exists a. repeat split; assumption.
    + unfold parse_args in H. cbv zeta in H.
      destruct (negb _) in H; discriminate H.
    + exfalso. unfold parse_args in H. cbv zeta in H.
      set (st0 := {| input_path := first |}) in H.
      destruct (fold_parse_arg_keeps rest st0 eq_refl ltac:(cbn; lia))
        as (He & _).
      rewrite He in H. cbn in H. discriminate H.
Qed.

Context {pillow : Pillow} {ospath : OsPath}.

(** X8: with the collage size that [parse_args] returned, step 5 of [main]
    always goes into the builder and the builder never takes its "collage
    disabled" return: what runs is the compositing of the first [og_max]
    thumbnail sources on the 1200 by 630 canvas. *)
Theorem main_never_disables_the_collage
        (argv : list string) (usage : bool) (a : Args)
        (tiles : list VideoTile) (ts : string) (w : World) :
  parse_args argv = (usage, Returned a) ->
  main_build_collages tiles (og_max a) ts w
  = bind (collage_from_srcs
            (firstn (Z.to_nat (og_max a)) (thumb_sources tiles))
            "." 1200 630 ts)
         (fun '(real_collage_data_uri, cover_path) =>
            ret (real_collage_data_uri, cover_path,
                 option_map path_name cover_path)) w.
Proof.
  intros H. destruct (parse_args_returned _ _ _ H) as (Ho & _).
  unfold main_build_collages, build_collages_for_33T.
  replace (0 <? og_max a) with true by (symmetry; apply Z.ltb_lt; lia).
  replace (og_max a <=? 0) with false by (symmetry; apply Z.leb_gt; lia).
  cbn [ENABLE_PUBLIC_OG_COLLAGE andb].
  now rewrite collect_thumb_srcs_is_prefix_aux by exact Ho.
Qed.

End CommandLineFacts.

Lemma main_never_disables_the_collage_witness :
  main_build_collages (pillow := Toy.pillow) (ospath := Toy.ospath)
    [Toy.tile (Some "thumbs/shot_001.png")] 1 "20260101_120000" Toy.world
  = bind (collage_from_srcs (pillow := Toy.pillow) (ospath := Toy.ospath)
            (firstn (Z.to_nat 1)
                    (thumb_sources [Toy.tile (Some "thumbs/shot_001.png")]))
            "." 1200 630 "20260101_120000")
         (fun '(real_collage_data_uri, cover_path) =>
            ret (real_collage_data_uri, cover_path,
                 option_map (path_name (OsPath := Toy.ospath)) cover_path))
         Toy.world.
Proof.
  apply (main_never_disables_the_collage
           (pyint := Toy2.pyint) (pillow := Toy.pillow) (ospath := Toy.ospath)
           ["prog"; "urls.csv"; "ogmax=0"] false
           {| input_path := "urls.csv"; arg_cols := None; obfuscate := false;
              screenshot_mode := false; engine := "selenium"; og_max := 1;
              aes_lock := false |}).
  reflexivity.
Defined.

(** ** Obfuscation wrapper *)

Lemma take_drop (n : nat) (s : string) : take n s ++ drop n s = s.
Proof.
  revert s. induction n as [|n IH]; intros [|c s]; cbn; try reflexivity.
  now rewrite IH.
Qed.

Lemma length_drop (n : nat) (s : string) :
  String.length (drop n s) = (String.length s - n)%nat.
Proof.
  revert s. induction n as [|n IH]; intros [|c s]; cbn [drop String.length];
    try lia.
  rewrite IH. lia.
Qed.

Lemma length_take (n : nat) (s : string) :
  String.length (take n s) = Nat.min n (String.length s).
Proof.
  revert s. induction n as [|n IH]; intros [|c s]; cbn; try reflexivity.
  now rewrite IH.
Qed.

Lemma chunk_loop_spec (width : nat) :
  (0 < width)%nat ->
  forall fuel s,
    (String.length s <= fuel)%nat ->
    join (chunk_loop fuel width s) = s
    /\ Forall (fun c => (1 <= String.length c <= width)%nat)
              (chunk_loop fuel width s).
Proof.
  intros Hw. induction fuel as [|fuel IH]; intros s Hs.
  - destruct s; [split; [reflexivity | constructor] | cbn in Hs; lia].
  - destruct s as [|c s]; [split; [reflexivity | constructor]|].
    cbn [chunk_loop].
    destruct (IH (drop width (String c s))) as (Hj & Hf).
    { rewrite length_drop. cbn [String.length] in *. lia. }
    split.
    + cbn [join]. rewrite Hj. apply take_drop.
    + constructor; [|exact Hf].
      rewrite length_take. cbn [String.length]. lia.
Qed.

(** X9: the page [make_obfuscated_wrapper] makes gives the document back:
    its chunks have between 1 and 4000 characters, and its script, joining
    them and decoding Base64 and UTF-8, hands [document.write] exactly the
    HTML that was wrapped. *)
Theorem obfuscated_page_restores_html (html : string) :
  utf8_valid (list_byte_of_string html) = true ->
  obfuscated_loader (make_obfuscated_wrapper html) = Some html
  /\ Forall (fun c => (1 <= String.length c <= 4000)%nat)
            (chunks (make_obfuscated_wrapper html)).
Proof.
  intros Hvalid.
  destruct (chunk_loop_spec 4000 ltac:(lia)
              (String.length (Base64.b64encode (list_byte_of_string html)))
              (Base64.b64encode (list_byte_of_string html)) (le_n _))
    as (Hjoin & Hchunks).
  split; [|exact Hchunks].
  unfold obfuscated_loader, make_obfuscated_wrapper, textwrap_wrap, b64ToUtf8.
  cbn [chunks]. rewrite Hjoin.
  rewrite Base64Facts.base64ToArrayBuffer_b64encode, Hvalid.
  now rewrite string_of_list_byte_of_string.
Qed.

Lemma obfuscated_page_restores_html_witness :
  obfuscated_loader (make_obfuscated_wrapper "<html>grid</html>")
  = Some "<html>grid</html>"
  /\ Forall (fun c => (1 <= String.length c <= 4000)%nat)
            (chunks (make_obfuscated_wrapper "<html>grid</html>")).
Proof.
  apply (obfuscated_page_restores_html "<html>grid</html>").
  reflexivity.
Defined.

(** ** The form of the protected page *)

Lemma strip_suffix (len : list N -> nat) (fuel : nat) :
  forall s, exists pre, s = (pre ++ strip len fuel s)%list.
Proof.
  induction fuel as [|fuel IH]; intros s; [now exists []|].
  cbn [strip]. destruct (len s) as [|n] eqn:Hn; [now exists []|].
  destruct (IH (skipn (S n) s)) as (pre & Hpre).
  exists (firstn (S n) s ++ pre)%list.
  rewrite <- app_assoc, <- Hpre. symmetry. apply firstn_skipn.
Qed.

Lemma strip_done (len : list N -> nat) :
  len [] = O ->
  forall fuel s, (List.length s <= fuel)%nat -> len (strip len fuel s) = O.
Proof.
  intros Hnil. induction fuel as [|fuel IH]; intros s Hs.
  - destruct s; [exact Hnil | cbn in Hs; lia].
  - cbn [strip]. destruct (len s) as [|n] eqn:Hn; [exact Hn|].
    apply IH. rewrite length_skipn.
    destruct s; [rewrite Hnil in Hn; discriminate | cbn in *; lia].
Qed.

Lemma strip_fixed (len : list N -> nat) (fuel : nat) (s : list N) :
  len s = O -> strip len fuel s = s.
Proof. intros H. destruct fuel; cbn [strip]; [reflexivity | now rewrite H]. Qed.

(** White space at the start of a text is seen in its first bytes. *)
Lemma space_length_app (a b : list N) :
  space_length a <> O -> space_length (a ++ b)%list = space_length a.
Proof.
  destruct a as [|c0 [|c1 [|c2 a]]]; cbn [space_length app]; intros H;
    try congruence.
  - destruct (space1 c0); [reflexivity | congruence].
  - destruct (space1 c0); [reflexivity|].
    destruct (space2 c0 c1); [reflexivity | congruence].
Qed.

Lemma codes_bounded (s : string) : Forall (fun c => (c < 256)%N) (codes s).
Proof.
  unfold codes. apply Forall_forall. intros c Hc.
  apply in_map_iff in Hc as (a & <- & _). apply N_ascii_bounded.
Qed.

Lemma codes_text (cs : list N) :
  Forall (fun c => (c < 256)%N) cs -> codes (text cs) = cs.
Proof.
  intros H. unfold codes, text.
  rewrite list_ascii_of_string_of_list_ascii, map_map.
  induction H as [|c cs Hc _ IH]; [reflexivity|].
  cbn [map]. now rewrite IH, N_ascii_embedding.
Qed.

(** What [trim] returns has no white space left at either end: trimming it
    again changes nothing. *)
Lemma js_trim_idempotent (value : string) :
  js_trim (js_trim value) = js_trim value.
Proof.
  unfold js_trim at 2 3. cbv zeta.
  set (s := codes value).
  set (s1 := strip space_length (List.length s) s).
  set (s2 := strip space_length_rev (List.length s1) (rev s1)).
  assert (Hs1 : space_length s1 = O) by (apply strip_done; [reflexivity | lia]).
  assert (Hs2 : space_length_rev s2 = O).
  { apply strip_done; [reflexivity | rewrite length_rev; lia]. }
  destruct (strip_suffix space_length (List.length s) s) as (pre1 & Hpre1).
  destruct (strip_suffix space_length_rev (List.length s1) (rev s1))
    as (pre2 & Hpre2).
  fold s1 in Hpre1. fold s2 in Hpre2.
  assert (Hsplit : s1 = (rev s2 ++ rev pre2)%list).
  { rewrite <- rev_app_distr, <- Hpre2. symmetry. apply rev_involutive. }
  assert (Ht0 : space_length (rev s2) = O).
  { destruct (space_length (rev s2)) as [|n] eqn:Hn; [reflexivity|].
    rewrite Hsplit, space_length_app in Hs1 by congruence. congruence. }
  assert (Hsmall : Forall (fun c => (c < 256)%N) (rev s2)).
  { pose proof (codes_bounded value) as Hb. fold s in Hb.
    rewrite Hpre1 in Hb. apply Forall_app in Hb as [_ Hb].
    rewrite Hsplit in Hb. now apply Forall_app in Hb as [Hb _]. }
  unfold js_trim. cbv zeta. rewrite (codes_text _ Hsmall).
  rewrite (strip_fixed _ _ _ Ht0), rev_involutive.
  now rewrite (strip_fixed _ _ _ Hs2).
Qed.

Section FormFacts.
Context {crypto : Crypto}.

(** Step 8 of [main] with a passphrase that is not empty: the page that
    [make_aes_protected_wrapper] returns is what is written as HTML B. *)
Lemma main_write_b_seals
      (html html_b_path pw : string) (og_image_rel : option string)
      (obfuscate : bool) (w : World) (rest : list string)
      (page : ProtectedPage) (w1 : World) :
  tty w = pw :: rest -> pw <> "" ->
  make_aes_protected_wrapper html pw og_image_rel
    {| files := files w; http_get := http_get w; entropy := entropy w;
       drawn := drawn w; tty := rest;
       log := GetPass :: Print MsgAesPrompt :: log w |} = (Ok page, w1) ->
  main_write_b html html_b_path og_image_rel true obfuscate w
  = (Ok tt, written html_b_path (ProtectedHtml page) w1).
Proof.
  intros Htty Hpw Hwrap. apply String.eqb_neq in Hpw.
  unfold main_write_b, bind, print, record, getpass.
  cbn -[make_aes_protected_wrapper]. rewrite Htty.
  cbn -[make_aes_protected_wrapper]. rewrite Hpw, Hwrap.
  reflexivity.
Qed.

(** X11: a passphrase that begins or ends with white space (one made of
    white space only included) is accepted by [main], which seals the page
    with it, but can never be entered in the page: the form trims what is
    typed, so every submission is either refused as empty or tried with a
    passphrase other than the one the page was sealed with. *)
Theorem untrimmed_passphrase_cannot_be_entered
        (html html_b_path pw : string) (og_image_rel : option string)
        (obfuscate : bool) (w : World) (rest : list string) :
  tty w = pw :: rest -> pw <> "" -> js_trim pw <> pw ->
  exists w' page,
    main_write_b html html_b_path og_image_rel true obfuscate w = (Ok tt, w')
    /\ lookup_file (files w') html_b_path = Some (ProtectedHtml page)
    /\ forall value,
         on_submit page value = PleaseEnterPassword
         \/ exists pw',
              pw' <> pw
              /\ on_submit page value = Tried (unlockWithPassword page pw').
Proof.
  intros Htty Hpw Htrim.
  destruct (make_aes_protected_wrapper_run
              html pw og_image_rel
              {| files := files w; http_get := http_get w;
                 entropy := entropy w; drawn := drawn w; tty := rest;
                 log := GetPass :: Print MsgAesPrompt :: log w |})
    as (page & w1 & Hwrap & _).
  eexists. exists page.
  split; [eapply main_write_b_seals; eassumption|].
  split; [cbn [written files]; apply lookup_file_head|].
  intros value. unfold on_submit. cbv zeta.
  destruct (String.eqb (js_trim value) ""); [now left|].
  right. exists (js_trim value). split; [|reflexivity].
  intros Heq. apply Htrim. rewrite <- Heq. apply js_trim_idempotent.
Qed.

Context {laws : CryptoLaws crypto}.


End FormFacts.

Lemma untrimmed_passphrase_cannot_be_entered_witness :
  exists w' page,
    main_write_b (crypto := Toy.crypto) "<html>grid</html>"
      "grid_20260101_120000_B.html" None true false
      (Toy.typing [" correct-horse"]) = (Ok tt, w')
    /\ lookup_file (files w') "grid_20260101_120000_B.html"
       = Some (ProtectedHtml page)
    /\ forall value,
         on_submit (crypto := Toy.crypto) page value = PleaseEnterPassword
         \/ exists pw',
              pw' <> " correct-horse"
              /\ on_submit (crypto := Toy.crypto) page value
                 = Tried (unlockWithPassword (crypto := Toy.crypto) page pw').
Proof.
  apply (untrimmed_passphrase_cannot_be_entered
           (crypto := Toy.crypto) "<html>grid</html>"
           "grid_20260101_120000_B.html" " correct-horse" None false
           (Toy.typing [" correct-horse"]) []).
  - reflexivity.
  - discriminate.
  - vm_compute. discriminate.
Defined.


(** ** Waiting for the pages *)

(** The loop either stops at the first request that is served, or makes
    all its requests and gives up. *)
Lemma wait_loop_spec (probe : nat -> option Response) (delay : Z) :
  forall remaining i,
    let events := wait_loop probe delay i remaining in
    (exists k,
        (k < remaining)%nat
        /\ served probe (i + k) = true
        /\ (forall j, (j < k)%nat -> served probe (i + j) = false)
        /\ List.length (filter is_get events) = S k
        /\ List.length (filter is_sleep events) = k
        /\ In WaitServing events /\ ~ In WaitGaveUp events)
    \/ ((forall j, (j < remaining)%nat -> served probe (i + j) = false)
        /\ List.length (filter is_get events) = remaining
        /\ List.length (filter is_sleep events) = remaining
        /\ In WaitGaveUp events /\ ~ In WaitServing events).
Proof.
  induction remaining as [|remaining IH]; intros i; cbv zeta.
  - right. cbn. repeat split; try lia; [now left|].
    intros [H | []]. discriminate H.
  - cbn [wait_loop].
    destruct (served probe i) eqn:Hi.
    + left. exists 0%nat. rewrite Nat.add_0_r.
      assert (Hev : match probe i with
                    | Some r =>
                        if ok r then [WaitServing]
                        else WaitCheck i :: WaitSleep delay
                             :: wait_loop probe delay (S i) remaining
                    | None =>
                        WaitCheck i :: WaitSleep delay
                        :: wait_loop probe delay (S i) remaining
                    end = [WaitServing]).
      { unfold served in Hi. destruct (probe i) as [r|]; [|discriminate].
        now rewrite Hi. }
      rewrite Hev. cbn.
      repeat split; try lia; [exact Hi | now right; left|].
      intros [H | [H | []]]; discriminate H.
    + assert (Hev : match probe i with
                    | Some r =>
                        if ok r then [WaitServing]
                        else WaitCheck i :: WaitSleep delay
                             :: wait_loop probe delay (S i) remaining
                    | None =>
                        WaitCheck i :: WaitSleep delay
                        :: wait_loop probe delay (S i) remaining
                    end
                    = WaitCheck i :: WaitSleep delay
                      :: wait_loop probe delay (S i) remaining).
      { unfold served in Hi. destruct (probe i) as [r|]; [|reflexivity].
        now rewrite Hi. }
      rewrite Hev. cbn [filter is_get is_sleep List.length].
      destruct (IH (S i)) as [(k & Hk & Hs & Hbefore & Hg & Hsl & Hin & Hout)
                             | (Hall & Hg & Hsl & Hin & Hout)].
      * left. exists (S k).
        replace (i + S k)%nat with (S i + k)%nat by lia.
        repeat split; try lia; try assumption.
        -- intros [|j] Hj; [now rewrite Nat.add_0_r|].
           replace (i + S j)%nat with (S i + j)%nat by lia.
           apply Hbefore. lia.
        -- now do 3 right.
        -- intros [H | [H | [H | H]]]; try discriminate H. now apply Hout.
      * right. repeat split; try lia.
        -- intros [|j] Hj; [now rewrite Nat.add_0_r|].
           replace (i + S j)%nat with (S i + j)%nat by lia.
           apply Hall. lia.
        -- now do 3 right.
        -- intros [H | [H | [H | H]]]; try discriminate H. now apply Hout.
Qed.


(** ** Removing the screenshots *)

Lemma lookup_file_remove_path (p q : string) (fs : list (string * FileContent)) :
  lookup_file (remove_path p fs) q
  = if String.eqb p q then None else lookup_file fs q.
Proof.
  induction fs as [|[p0 c0] fs IH]; cbn [remove_path filter lookup_file fst].
  - now destruct (String.eqb p q).
  - destruct (String.eqb_spec p0 p) as [-> | Hne]; cbn [negb].
    + fold (remove_path p fs). rewrite IH.
      now destruct (String.eqb p q).
    + fold (remove_path p fs). cbn [lookup_file]. rewrite IH.
      destruct (String.eqb_spec p0 q) as [<- | Hq]; [|reflexivity].
      replace (String.eqb p p0) with false; [reflexivity|].
      symmetry. apply String.eqb_neq. congruence.
Qed.

Section CleanupFacts.
Context {ospath : OsPath}.

Lemma cleanup_lookup (locked : string -> bool) (repo_root : string)
      (q : string) (rels : list string) :
  forall fs,
    lookup_file
      (fold_left (fun fs rel => unlink locked (screenshot_path repo_root rel) fs)
                 rels fs) q
    = if existsb (fun rel =>
                    String.eqb (screenshot_path repo_root rel) q
                    && negb (locked (screenshot_path repo_root rel))) rels
      then None else lookup_file fs q.
Proof.
  induction rels as [|rel rels IH]; intros fs; [reflexivity|].
  cbn [fold_left existsb]. rewrite IH. unfold unlink.
  destruct (existsb _ rels); [now rewrite orb_true_r|].
  rewrite orb_false_r.
  destruct (locked (screenshot_path repo_root rel)); cbn [negb].
  - now rewrite andb_false_r.
  - rewrite andb_true_r. apply lookup_file_remove_path.
Qed.


End CleanupFacts.

(** ** What a paste looks like *)

(** [fit] keeps one side of the cell: the width when the image is wider
    than the cell, the height otherwise. *)
Lemma fit_spans_cell (im : Image) (cw ch new_w new_h : Z) :
  fit im cw ch = Ok (new_w, new_h) -> new_w = cw \/ new_h = ch.
Proof.
  unfold fit.
  destruct (Float64.true_div (width im) (height im)) as [im_ratio | |];
    cbn [outcome_bind]; try discriminate.
  destruct (Float64.true_div cw ch) as [cell_ratio | |];
    cbn [outcome_bind]; try discriminate.
  destruct (SFltb cell_ratio im_ratio).
  - destruct (Float64.is_zero im_ratio); [discriminate|].
    destruct (Float64.to_int _); cbn [outcome_bind]; try discriminate.
    intros [= <- _]. now left.
  - destruct (Float64.to_int _); cbn [outcome_bind]; try discriminate.
    intros [= _ <-]. now right.
Qed.

Lemma row_major_nth (L : Layout) (imgs : list Image) :
  forall idx ps k p,
    row_major L idx imgs ps ->
    nth_error ps k = Some p ->
    exists im, nth_error imgs k = Some im
               /\ pasted_at L (idx + Z.of_nat k) im p.
Proof.
  induction imgs as [|im imgs IH]; intros idx [|p0 ps] k p Hrm Hk;
    cbn [row_major] in Hrm; try contradiction.
  - destruct k; discriminate Hk.
  - destruct Hrm as (Hp0 & Hrest). destruct k as [|k]; cbn [nth_error] in *.
    + injection Hk as <-. exists im. split; [reflexivity|].
      now rewrite Z.add_0_r.
    + destruct (IH _ _ _ _ Hrest Hk) as (im' & Him' & Hp).
      exists im'. split; [exact Him'|].
      replace (idx + Z.of_nat (S k)) with (idx + 1 + Z.of_nat k) by lia.
      exact Hp.
Qed.

(** X14: in a drawing that succeeded the pastes are the loaded images in
    order, and each is resized so that it spans its cell in one direction:
    the [k]-th either has the width of the cell and starts at the left edge
    of cell [k], or has the height of the cell and starts at its top edge. *)
Theorem every_paste_spans_its_cell
        (imgs : list Image) (bw bh : Z) (L : Layout) (collage : Canvas) :
  draw_collage imgs bw bh = Ok (L, collage) ->
  map paste_im (canvas_pastes collage) = imgs
  /\ forall k p,
       nth_error (canvas_pastes collage) k = Some p ->
       paste_new_w p = cell_w L
       /\ paste_x p = (Z.of_nat k mod cols L) * cell_w L
       \/ paste_new_h p = cell_h L
          /\ paste_y p = (Z.of_nat k / cols L) * cell_h L.
Proof.
  intros Hd. split; [eapply draw_collage_pastes; exact Hd|].
  unfold draw_collage in Hd. intros k p Hk.
  destruct (solve_layout _ bw bh) as [L0 | e | c] eqn:HL;
    cbn [outcome_bind] in Hd; try discriminate.
  destruct (place_loop L0 0 imgs _) as [c0 | e | c] eqn:Hp;
    cbn [outcome_bind] in Hd; try discriminate.
  injection Hd as -> ->.
  destruct (solve_layout_shape _ _ _ _ HL) as (Hc & Hr).
  rewrite place_loop_no_break in Hp; [|lia|lia|].
  - destruct (place_all_pastes _ _ _ _ _ Hp) as (ps & Hps & Hrm).
    cbn [Image_new canvas_pastes app] in Hps. rewrite Hps in Hk.
    destruct (row_major_nth _ _ _ _ _ _ Hrm Hk)
      as (im & Him & Hpim & Hfit & Hx & Hy).
    cbn [Z.add] in Hx, Hy.
    destruct (fit_spans_cell _ _ _ _ _ Hfit) as [Hw | Hh].
    + left. split; [exact Hw|]. rewrite Hx, Hw, Z.sub_diag. cbn. lia.
    + right. split; [exact Hh|]. rewrite Hy, Hh, Z.sub_diag. cbn. lia.
  - intros j Hj. rewrite Hr. apply index_row_below_rows; lia.
Qed.

Lemma every_paste_spans_its_cell_witness :
  map paste_im
    [ {| paste_im := Toy.photo; paste_new_w := 400; paste_new_h := 300;
         paste_x := 0; paste_y := 165 |};
      {| paste_im := Toy.banner; paste_new_w := 400; paste_new_h := 225;
         paste_x := 400; paste_y := 202 |} ]
  = [Toy.photo; Toy.banner]
  /\ forall k p,
       nth_error
         [ {| paste_im := Toy.photo; paste_new_w := 400; paste_new_h := 300;
              paste_x := 0; paste_y := 165 |};
           {| paste_im := Toy.banner; paste_new_w := 400; paste_new_h := 225;
              paste_x := 400; paste_y := 202 |} ] k = Some p ->
       paste_new_w p = 400 /\ paste_x p = (Z.of_nat k mod 3) * 400
       \/ paste_new_h p = 630 /\ paste_y p = (Z.of_nat k / 3) * 630.
Proof.
  exact (every_paste_spans_its_cell
           [Toy.photo; Toy.banner] 1200 630
           {| cols := 3; rows := 1; cell_w := 400; cell_h := 630 |}
           {| canvas_w := 1200; canvas_h := 630; canvas_color := (0, 0, 0);
              canvas_pastes :=
                [ {| paste_im := Toy.photo; paste_new_w := 400;
                     paste_new_h := 300; paste_x := 0; paste_y := 165 |};
                  {| paste_im := Toy.banner; paste_new_w := 400;
                     paste_new_h := 225; paste_x := 400; paste_y := 202 |} ] |}
           eq_refl).
Defined.

(** ** The cover that [main] publishes *)

Section PublishFacts.
Context {pillow : Pillow} {ospath : OsPath}.

(** X15: step 5 of [main] sets [og_image_rel] exactly when a cover was
    saved, to the name of that file, and then the file holds the blur of the
    very collage whose PNG is the embedded data URI; when no cover is
    returned there is no data URI either and no file was written, also when
    the step ends in an exception. *)
Theorem og_image_names_a_saved_cover
        (tiles : list VideoTile) (og_max : Z) (ts : string) (w : World) :
  match main_build_collages tiles og_max ts w with
  | (Ok (real_collage_data_uri, cover_path, og_image_rel), w') =>
      og_image_rel = option_map path_name cover_path
      /\ match cover_path with
         | Some p =>
             exists collage,
               lookup_file (files w') p = Some (cover_of collage)
               /\ real_collage_data_uri = Some (real_data_uri_of collage)
         | None => real_collage_data_uri = None /\ files w' = files w
         end
  | (Raise _, w') => files w' = files w
  | (Exit _, _) => False
  end.
Proof.
  unfold main_build_collages.
  destruct (ENABLE_PUBLIC_OG_COLLAGE && (0 <? og_max));
    [|cbn; repeat split].
  unfold bind.
  set (srcs := collect_thumb_srcs tiles og_max []).
  set (imgs := load_images w srcs ".").
  assert (Hcases : (og_max <= 0 \/ srcs = [] \/ imgs = [])
                   \/ ~ (og_max <= 0 \/ srcs = [] \/ imgs = [])).
  { destruct (Z_le_gt_dec og_max 0); [tauto|].
    destruct srcs; [tauto|]. destruct imgs; [tauto|].
    right. intros [H | [H | H]]; [lia | discriminate | discriminate]. }
  destruct Hcases as [Hc | Hc].
  - destruct (build_collages_early_return tiles "." og_max 1200 630 ts w Hc)
      as (m & _ & ->).
    cbn. repeat split.
  - rewrite (build_collages_late tiles "." og_max 1200 630 ts w Hc).
    fold srcs imgs.
    pose proof (exits_draw_collage imgs 1200 630) as Hex.
    destruct (draw_collage imgs 1200 630) as [[L collage] | e | code] eqn:Hd;
      [| |discriminate Hex].
    + rewrite (compose_drawn imgs "." 1200 630 ts w L collage Hd).
      cbn [ret fst snd]. split; [reflexivity|].
      exists collage. cbn [logged written files].
      rewrite lookup_file_head. split; reflexivity.
    + destruct (compose_raised imgs "." 1200 630 ts w e Hd) as (Hr & Hf).
      destruct (compose imgs "." 1200 630 ts w) as [o w']. cbn in Hr, Hf.
      rewrite Hr. exact Hf.
Qed.

End PublishFacts.
